(** * cet — Compiler Explorer Terminal: a shallow embedding of [main.go]

    The program reads a source file, gathers sibling sources with
    [collectProjectFiles], posts one compile request and prints the answer;
    [watch] repeats this on file changes behind a 100 ms debounce timer.

    Layout of this development:
    - [GoPath]: the functions of Go's [path/filepath] (Unix build) and the
      [os.basename] helper that the program calls, on byte strings;
    - [Walk]: the directory tree as [os.Lstat]/[os.ReadDir] show it and
      [filepath.WalkDir] over it;
    - [Cet]: the program itself, function by function;
    - [Spec]: the predicates the properties are stated with, and sample
      worlds;
    - the properties, part by part of the program. *)

From Stdlib Require Import ZArith Ascii String List Bool Lia.
From stdpp Require Import base option list gmap strings.
Import ListNotations.

Local Open Scope string_scope.
Local Open Scope Z_scope.

(** ** Go values shared by every part *)

(** Go's [error] values.  [SkipDir] and [SkipAll] are the sentinels of
    [io/fs]; [ErrNew] is any other error made by the standard library or
    the operating system; [Errorf] is [fmt.Errorf(prefix + "%w" + suffix)]. *)
Inductive error : Type :=
| SkipDir
| SkipAll
| ErrNew (msg : string)
| Errorf (prefix : string) (cause : error) (suffix : string).

(** [err.Error()] *)
Fixpoint Error (e : error) : string :=
  match e with
  | SkipDir => "skip this directory"
  | SkipAll => "skip everything and stop the walk"
  | ErrNew msg => msg
  | Errorf p c s => p +:+ Error c +:+ s
  end.

(** [err == fs.SkipDir] *)
Definition isSkipDir (e : error) : bool :=
  match e with SkipDir => true | _ => false end.

Definition isSkipAll (e : error) : bool :=
  match e with SkipAll => true | _ => false end.

(** A Go pair [(value, error)] in which exactly one side is meaningful. *)
Inductive result (A : Type) : Type :=
| Ok (a : A)
| Err (e : error).
Arguments Ok {A} a.
Arguments Err {A} e.

(** ** [path/filepath] on Unix *)
Module GoPath.

Definition Separator : ascii := "/"%char.

Definition IsPathSeparator (c : ascii) : bool := Ascii.eqb c Separator.

Definition isDot (c : ascii) : bool := Ascii.eqb c "."%char.

(** [s[a:b]] and [s[i]] of a Go string *)
Definition slice (s : string) (a b : nat) : string := substring a (b - a) s.

Definition byteAt (s : string) (i : nat) : ascii :=
  match String.get i s with Some c => c | None => Ascii.zero end.

(** [filepath.Ext]: the loop runs from the last byte towards the first and
    stops at a separator; [acc] is [path[i+1:]]. *)
Fixpoint extScan (rev_path : list ascii) (acc : list ascii) : list ascii :=
  match rev_path with
  | [] => []
  | c :: r =>
      if IsPathSeparator c then []
      else if isDot c then c :: acc
      else extScan r (c :: acc)
  end.

Definition Ext (path : string) : string :=
  string_of_list_ascii (extScan (rev (list_ascii_of_string path)) []).

(** [filepath.Clean].  [out] is the output buffer, last byte first, so
    that [out.w] is its length; [dotdot] is the index where [..] must stop. *)
Fixpoint backtrack (out : list ascii) (dotdot : nat) : list ascii :=
  match out with
  | [] => []
  | c :: out' =>
      (* out.w-- has just exposed c at index out.w *)
      if (dotdot <? length out')%nat && negb (IsPathSeparator c)
      then backtrack out' dotdot
      else out'
  end.

Definition isEnd (p : list ascii) : bool :=
  match p with
  | [] => true
  | c :: _ => IsPathSeparator c
  end.

(** One pass over the bytes of [path]; [copying] is set while the inner
    loop of the default case copies a path element. *)
Fixpoint cleanLoop (rooted : bool) (p : list ascii) (copying : bool)
         (out : list ascii) (dotdot : nat) : list ascii :=
  match p with
  | [] => out
  | c :: p1 =>
      if copying then
        if IsPathSeparator c then cleanLoop rooted p1 false out dotdot
        else cleanLoop rooted p1 true (c :: out) dotdot
      else if IsPathSeparator c then
        (* empty path element *)
        cleanLoop rooted p1 false out dotdot
      else if isDot c && isEnd p1 then
        (* . element *)
        cleanLoop rooted p1 false out dotdot
      else
        let dflt :=
          (* real path element: add slash if needed, then copy it *)
          let out1 :=
            if (rooted && negb (length out =? 1)%nat)
               || (negb rooted && negb (length out =? 0)%nat)
            then Separator :: out else out in
          cleanLoop rooted p1 true (c :: out1) dotdot in
        match p1 with
        | c2 :: p2 =>
            if isDot c && isDot c2 && isEnd p2 then
              (* .. element: remove to last separator *)
              if (dotdot <? length out)%nat then
                cleanLoop rooted p2 false (backtrack out dotdot) dotdot
              else if negb rooted then
                let out1 := if (0 <? length out)%nat then Separator :: out else out in
                let out2 := "."%char :: "."%char :: out1 in
                cleanLoop rooted p2 false out2 (length out2)
              else cleanLoop rooted p2 false out dotdot
            else dflt
        | [] => dflt
        end
  end.

Definition Clean (path : string) : string :=
  match list_ascii_of_string path with
  | [] => "."
  | c :: p1 =>
      let rooted := IsPathSeparator c in
      let out :=
        if rooted then cleanLoop true p1 false [Separator] 1
        else cleanLoop false (c :: p1) false [] 0 in
      match out with
      | [] => "."
      | _ => string_of_list_ascii (rev out)
      end
  end.

(** [strings.Join(elem, "/")] *)
Fixpoint joinSep (elem : list string) : string :=
  match elem with
  | [] => ""
  | [e] => e
  | e :: rest => e +:+ "/" +:+ joinSep rest
  end.

(** [filepath.Join]: leading empty elements are dropped, the rest is
    joined with the separator and cleaned. *)
Fixpoint Join (elem : list string) : string :=
  match elem with
  | [] => ""
  | e :: rest =>
      if String.eqb e "" then Join rest else Clean (joinSep (e :: rest))
  end.

Definition IsAbs (path : string) : bool :=
  match path with
  | String c _ => IsPathSeparator c
  | EmptyString => false
  end.

(** [filepath.Dir]: everything up to the last separator, cleaned. *)
Fixpoint dropLastElem (rev_path : list ascii) : list ascii :=
  match rev_path with
  | [] => []
  | c :: r => if IsPathSeparator c then rev_path else dropLastElem r
  end.

Definition Dir (path : string) : string :=
  Clean (string_of_list_ascii
           (rev (dropLastElem (rev (list_ascii_of_string path))))).

(** [os.basename], the name [os.Lstat] stores in the [FileInfo] of the
    path it was given: trailing slashes removed, then the leading
    directory.  (Later releases of Go call [filepath.Base] there; the two
    agree on every path but the empty one, which [os.Lstat] refuses.) *)
Fixpoint trimSlashes (rev_name : list ascii) : list ascii :=
  match rev_name with
  | c :: ((_ :: _) as r) => if IsPathSeparator c then trimSlashes r else rev_name
  | _ => rev_name
  end.

Fixpoint lastElem (rev_name : list ascii) (acc : list ascii) : list ascii :=
  match rev_name with
  | [] => acc
  | c :: r => if IsPathSeparator c then acc else lastElem r (c :: acc)
  end.

Definition basename (name : string) : string :=
  match trimSlashes (rev (list_ascii_of_string name)) with
  | [] => ""
  | c :: r => string_of_list_ascii (lastElem r [c])
  end.

(** [filepath.Rel].  The two inner loops move an index to the next
    separator; the outer loop positions [base[b0:bi]] and [targ[t0:ti]] at
    the first differing elements. *)
Fixpoint toSep (fuel : nat) (s : string) (i l : nat) : nat :=
  match fuel with
  | O => i
  | S f =>
      if (i <? l)%nat && negb (IsPathSeparator (byteAt s i))
      then toSep f s (i + 1)%nat l else i
  end.

Fixpoint relLoop (fuel : nat) (base targ : string) (bl tl b0 bi t0 ti : nat)
  : nat * nat * nat * nat :=
  match fuel with
  | O => (b0, bi, t0, ti)
  | S f =>
      if (bi <? bl)%nat && (ti <? tl)%nat then
        let bi := toSep bl base bi bl in
        let ti := toSep tl targ ti tl in
        if negb (String.eqb (slice targ t0 ti) (slice base b0 bi))
        then (b0, bi, t0, ti)
        else
          let bi := if (bi <? bl)%nat then (bi + 1)%nat else bi in
          let ti := if (ti <? tl)%nat then (ti + 1)%nat else ti in
          relLoop f base targ bl tl bi bi ti ti
      else (b0, bi, t0, ti)
  end.

Fixpoint countSep (s : string) : nat :=
  match s with
  | EmptyString => O
  | String c r => ((if IsPathSeparator c then 1 else 0) + countSep r)%nat
  end.

Fixpoint dotdots (seps : nat) : string :=
  match seps with
  | O => ""
  | S n => "/.." +:+ dotdots n
  end.

Definition Rel (basepath targpath : string) : result string :=
  let base := Clean basepath in
  let targ := Clean targpath in
  if String.eqb targ base then Ok "."
  else
    let base := if String.eqb base "." then "" else base in
    if negb (Bool.eqb (IsAbs base) (IsAbs targ)) then
      Err (ErrNew ("Rel: can't make " +:+ targpath +:+ " relative to " +:+ basepath))
    else
      let bl := String.length base in
      let tl := String.length targ in
      let '(b0, bi, t0, ti) := relLoop (S (bl + tl)) base targ bl tl 0 0 0 0 in
      if String.eqb (slice base b0 bi) ".." then
        Err (ErrNew ("Rel: can't make " +:+ targpath +:+ " relative to " +:+ basepath))
      else if negb (b0 =? bl)%nat then
        (* base elements left: go up before going down *)
        let seps := countSep (slice base b0 bl) in
        Ok (".." +:+ dotdots seps +:+
            (if negb (t0 =? tl)%nat then "/" +:+ slice targ t0 tl else ""))
      else Ok (slice targ t0 tl).

End GoPath.

(** ** The directory tree and [filepath.WalkDir] *)
Module Walk.
Import GoPath.

(** The type bits of an entry that is not a directory ([fs.FileMode.Type]). *)
Inductive FileType : Type :=
| Regular | Symlink | NamedPipe | Socket | Device | CharDevice | Irregular.

(** What [os.Lstat] and [os.ReadDir] show below a path.  [WalkDir] never
    follows a symbolic link, so a link is a leaf whatever it points to.
    A directory carries the entries [os.ReadDir] returned, in its order,
    and the error it returned with them, if any. *)
#[local] Unset Elimination Schemes.
Inductive Node : Type :=
| File (t : FileType)
| Directory (entries : list (string * Node)) (readErr : option error).
#[local] Set Elimination Schemes.

Inductive FileMode : Type :=
| ModeDir
| ModeType (t : FileType).

(** [fs.DirEntry] *)
Record DirEntry : Type := { Name : string; Type_ : FileMode }.

Definition IsDir (d : DirEntry) : bool :=
  match Type_ d with ModeDir => true | ModeType _ => false end.

(** The arguments [(d, err)] of an [fs.WalkDirFunc] call: [err] is nil and
    [d] is an entry, or [err] reports a failed [Lstat] of the root ([d]
    is nil) or a failed [ReadDir] of the directory [d]. *)
Inductive WalkArg : Type :=
| Visit (d : DirEntry)
| Failed (d : option DirEntry) (err : error).

Section WalkDir.
(** [S] is the state the closure captures and updates. *)
Context {S : Type}.
Variable fn : string -> WalkArg -> S -> S * option error.

(** A directory skipped with [SkipDir] is a success. *)
Definition skipped (r : S * option error) : S * option error :=
  match r with
  | (s, Some e) => (s, if isSkipDir e then None else Some e)
  | (s, None) => (s, None)
  end.

(** [filepath.walkDir] *)
Fixpoint walkDir (path name : string) (n : Node) (s : S) {struct n}
  : S * option error :=
  match n with
  | File t => fn path (Visit {| Name := name; Type_ := ModeType t |}) s
  | Directory entries readErr =>
      let d := {| Name := name; Type_ := ModeDir |} in
      let loop :=
        fix loop (dirs : list (string * Node)) (s : S) : S * option error :=
          match dirs with
          | [] => (s, None)
          | (name1, n1) :: dirs' =>
              match walkDir (Join [path; name1]) name1 n1 s with
              | (s', None) => loop dirs' s'
              | (s', Some e) =>
                  if isSkipDir e then (s', None) else (s', Some e)
              end
          end in
      match fn path (Visit d) s with
      | (s1, Some e) => skipped (s1, Some e)
      | (s1, None) =>
          match readErr with
          | None => loop entries s1
          | Some re =>
              (* second call, to report the ReadDir error *)
              match fn path (Failed (Some d) re) s1 with
              | (s2, Some e) => skipped (s2, Some e)
              | (s2, None) => loop entries s2
              end
          end
      end
  end.

(** The loop over the entries of a directory, as a function of its own. *)
Fixpoint walkEntries (path : string) (dirs : list (string * Node)) (s : S)
  : S * option error :=
  match dirs with
  | [] => (s, None)
  | (name1, n1) :: dirs' =>
      match walkDir (Join [path; name1]) name1 n1 s with
      | (s', None) => walkEntries path dirs' s'
      | (s', Some e) => if isSkipDir e then (s', None) else (s', Some e)
      end
  end.

(** [filepath.WalkDir]; [lstat] is the outcome of [os.Lstat(root)]
    together with what lies below. *)
Definition WalkDir (lstat : result Node) (root : string) (s : S)
  : S * option error :=
  let r :=
    match lstat with
    | Err e => fn root (Failed None e) s
    | Ok n => walkDir root (basename root) n s
    end in
  match r with
  | (s', Some e) =>
      (s', if isSkipDir e || isSkipAll e then None else Some e)
  | (s', None) => (s', None)
  end.

End WalkDir.

(** Induction on a tree with the hypothesis for every entry of a directory. *)
Section NodeInd.
Variable P : Node -> Prop.
Hypothesis HFile : forall t, P (File t).
Hypothesis HDir : forall entries readErr,
    Forall (fun e => P (snd e)) entries -> P (Directory entries readErr).

Fixpoint Node_tree_ind (n : Node) : P n :=
  match n with
  | File t => HFile t
  | Directory entries readErr =>
      HDir entries readErr
        ((fix go (l : list (string * Node)) : Forall (fun e => P (snd e)) l :=
            match l with
            | [] => List.Forall_nil _
            | e :: l' => List.Forall_cons _ e l' (Node_tree_ind (snd e)) (go l')
            end) entries)
  end.
End NodeInd.

End Walk.

(** ** The program *)
Module Cet.
Import GoPath Walk.

(** *** Request and response types *)

Record FileEntry : Type := {
  Filename : string;
  Contents : string
}.

Record Filters : Type := {
  Binary : bool;
  CommentOnly : bool;
  Demangle : bool;
  Directives : bool;
  Intel : bool;
  Labels : bool;
  Trim : bool
}.

Record CompileOptions : Type := {
  UserArguments : string;
  Filters_ : Filters
}.

Record CompileRequest : Type := {
  Source : string;
  Options : CompileOptions;
  Files : list FileEntry
}.

Record OutputLine : Type := { Text : string }.

Record AsmSource : Type := { File_ : option string; Line : Z }.

Record AsmLine : Type := { AsmText : string; AsmSource_ : option AsmSource }.

Record CompileResponse : Type := {
  Code : Z;
  Stdout : list OutputLine;
  Stderr : list OutputLine;
  Asm : list AsmLine
}.

(** *** The world outside the program

    Everything the program asks of the operating system, the network and
    the libraries it links, as the answers it gets. *)
Record Env : Type := {
  (* os *)
  Lstat : string -> result Node;
  ReadFile : string -> result string;
  Getwd : result string;
  StatIsNotExist : string -> bool;   (* os.IsNotExist of the error of os.Stat *)
  (* strings, encoding/json, chroma *)
  ToLower : string -> string;
  Marshal : CompileRequest -> result string;
  Unmarshal : string -> result CompileResponse;
  chroma : string -> string -> result string;  (* language, code *)
  (* net/http: NewRequest's check of method and URL; the outcome of
     client.Do and, inside it, of io.ReadAll on the response body *)
  NewRequest : string -> string -> option error;
  Do : string -> string -> list (string * string) -> string -> result (result string);
  (* fsnotify *)
  NewWatcher : option error;
  WatcherAdd : string -> option error;
  (* time.Now().Format("15:04:05") *)
  Clock : string
}.

(** What a run does to the outside, in order. *)
Inductive event : Type :=
| Print (s : string)                 (* to os.Stdout *)
| PrintErr (s : string)              (* to os.Stderr *)
| PrintDefaults                      (* flag.PrintDefaults *)
| Clear                              (* exec "clear" *)
| HTTPDo (method url : string) (header : list (string * string)) (body : string)
| BodyClose.

Definition ESC : string := String (ascii_of_nat 27) "".
Definition LF : string := String (ascii_of_nat 10) "".

(** [filepath.Abs] on Unix *)
Definition Abs (env : Env) (path : string) : result string :=
  if IsAbs path then Ok (Clean path)
  else match Getwd env with
       | Err e => Err e
       | Ok wd => Ok (Join [wd; path])
       end.

(** *** [collectProjectFiles] *)

Definition skipDirs : gmap string bool :=
  <[".zig-cache" := true]> (<[".git" := true]> (<[".idea" := true]>
  (<["node_modules" := true]> (<["target" := true]> (<["zig-out" := true]> ∅))))).

(** [skipDirs[name]]: a missing key reads as [false]. *)
Definition skipDir (name : string) : bool := default false (skipDirs !! name).

(** The closure passed to [filepath.WalkDir]; its captured variable
    [files] is the state. *)
Definition collectFn (env : Env) (ext mainFile relativeToDir : string)
           (path : string) (a : WalkArg) (files : list FileEntry)
  : list FileEntry * option error :=
  match a with
  | Failed _ err => (files, Some err)
  | Visit d =>
      if IsDir d then
        if skipDir (Name d) then (files, Some SkipDir) else (files, None)
      else if negb (String.eqb (Ext path) ext)
              || String.eqb path mainFile
              || String.eqb (Name d) "build.zig"
      then (files, None)
      else
        match ReadFile env path with
        | Err err => (files, Some err)
        | Ok content =>
            match Rel relativeToDir path with
            | Err err => (files, Some err)
            | Ok relPath =>
                ((files ++ [{| Filename := relPath; Contents := content |}])%list, None)
            end
        end
  end.

Definition collectProjectFiles (env : Env)
           (searchDir mainFile relativeToDir : string)
  : list FileEntry * option error :=
  let ext := Ext mainFile in
  WalkDir (collectFn env ext mainFile relativeToDir)
          (Lstat env searchDir) searchDir [].

(** *** Effects

    A function that prints, performs requests and may return a Go error:
    the events it caused so far and its outcome. *)
Definition IO (A : Type) : Type := list event * result A.

Definition ret {A} (a : A) : IO A := ([], Ok a).

Definition bind {A B} (m : IO A) (k : A -> IO B) : IO B :=
  match m with
  | (t, Ok a) => let '(t', r) := k a in ((t ++ t')%list, r)
  | (t, Err e) => (t, Err e)
  end.

Definition emit (e : event) : IO unit := ([e], Ok tt).

(** [v, err := f(); if err != nil { return wrap(err) }] *)
Definition try {A} (r : result A) (wrap : error -> error) : IO A :=
  match r with
  | Ok a => ret a
  | Err e => ([], Err (wrap e))
  end.

(** [defer]: the event happens when the rest returns, however it does. *)
Definition defer {A} (e : event) (rest : IO A) : IO A :=
  let '(t, r) := rest in ((t ++ [e])%list, r).

Definition when (b : bool) (m : IO unit) : IO unit :=
  if b then m else ret tt.

Fixpoint forEach {A} (l : list A) (body : A -> IO unit) : IO unit :=
  match l with
  | [] => ret tt
  | x :: l' => bind (body x) (fun _ => forEach l' body)
  end.

Declare Scope io_scope.
Delimit Scope io_scope with io.
Notation "x <- m ;; k" := (bind m (fun x => k))
  (at level 200, m at level 99, right associativity) : io_scope.
Notation "m ;;; k" := (bind m (fun _ => k))
  (at level 200, right associativity) : io_scope.
Local Open Scope io_scope.

Definition Println (s : string) : event := Print (s +:+ LF).

(** *** [highlight] and [getLangFromFile] *)

(** Lexer, style and formatter each fall back to a default, so only
    tokenising and formatting can fail; both failures return the code. *)
Definition highlight (env : Env) (code language : string) : string :=
  match chroma env language code with
  | Err _ => code
  | Ok s => s
  end.

Definition getLangFromFile (env : Env) (filePath : string) : string :=
  let ext := ToLower env (Ext filePath) in
  if String.eqb ext ".zig" then "zig"
  else if String.eqb ext ".c" then "c"
  else if String.eqb ext ".cpp" || String.eqb ext ".cc" || String.eqb ext ".cxx"
  then "cpp"
  else if String.eqb ext ".rs" then "rust"
  else if String.eqb ext ".go" then "go"
  else if String.eqb ext ".py" then "python"
  else "".

(** *** [compile] *)

(** Lines 192-215: where to search, and what was found.  A failed
    collection is reported and leaves the list nil. *)
Definition projectFilesOf (env : Env) (filePath projectRoot : string)
  : IO (list FileEntry) :=
  absPath <- try (Abs env filePath) (fun e => Errorf "failed to get absolute path: " e "") ;;
  let mainDir := Dir absPath in
  searchDir <- (if negb (String.eqb projectRoot "")
                then try (Abs env projectRoot)
                         (fun e => Errorf "failed to get absolute project root: " e "")
                else ret mainDir) ;;
  match collectProjectFiles env searchDir absPath mainDir with
  | (_, Some err) =>
      emit (Print (ESC +:+ "[33mWarning: could not collect project files: "
                       +:+ Error err +:+ ESC +:+ "[0m" +:+ LF)) ;;;
      ret []
  | (projectFiles, None) => ret projectFiles
  end.

(** Lines 217-232 *)
Definition mkRequest (source : string) (projectFiles : list FileEntry)
           (args : string) : CompileRequest :=
  {| Source := source;
     Files := projectFiles;
     Options :=
       {| UserArguments := args;
          Filters_ :=
            {| Binary := false;
               CommentOnly := true;
               Demangle := true;
               Directives := true;
               Intel := true;
               Labels := true;
               Trim := false |} |} |}.

(** Lines 180-232: from the file to the request. *)
Definition prepare (env : Env) (filePath args : string) (showSource : bool)
           (projectRoot : string) : IO CompileRequest :=
  source <- try (ReadFile env filePath) (fun e => Errorf "failed to read file: " e "") ;;
  when showSource
       (let lang := getLangFromFile env filePath in
        emit (Println (ESC +:+ "[36m━━━ Source ━━━" +:+ ESC +:+ "[0m")) ;;;
        emit (Println (highlight env source lang))) ;;;
  projectFiles <- projectFilesOf env filePath projectRoot ;;
  ret (mkRequest source projectFiles args).

Definition compileURL (baseURL compiler : string) : string :=
  baseURL +:+ "/api/compiler/" +:+ compiler +:+ "/compile".

Definition requestHeader : list (string * string) :=
  [("Content-Type", "application/json"); ("Accept", "application/json")].

(** [client.Do(httpReq)]: one request goes out, one answer or error
    comes back. *)
Definition clientDo (env : Env) (method url : string)
           (header : list (string * string)) (body : string)
  : IO (result string) :=
  ([HTTPDo method url header body],
   match Do env method url header body with
   | Ok resp => Ok resp
   | Err e => Err (Errorf "failed to send request: " e "")
   end).

(** Lines 265-284 *)
Definition render (env : Env) (result : CompileResponse) : IO unit :=
  forEach (Stderr result)
          (fun line => emit (Print (ESC +:+ "[31m" +:+ Text line +:+ ESC +:+ "[0m" +:+ LF))) ;;;
  forEach (Stdout result) (fun line => emit (Println (Text line))) ;;;
  when (0 <? length (Asm result))%nat
       (emit (Println (LF +:+ ESC +:+ "[36m━━━ Assembly ━━━" +:+ ESC +:+ "[0m")) ;;;
        let asm := fold_left (fun b line => b +:+ AsmText line +:+ LF) (Asm result) "" in
        emit (Print (highlight env asm "gas"))).

(** Lines 234-286: marshal, post, read, parse, print. *)
Definition send (env : Env) (baseURL compiler : string) (req : CompileRequest)
  : IO unit :=
  jsonData <- try (Marshal env req) (fun e => Errorf "failed to marshal request: " e "") ;;
  let url := compileURL baseURL compiler in
  try (match NewRequest env "POST" url with Some e => Err e | None => Ok tt end)
      (fun e => Errorf "failed to create request: " e "") ;;;
  resp <- clientDo env "POST" url requestHeader jsonData ;;
  defer BodyClose
    (body <- try resp (fun e => Errorf "failed to read response: " e "") ;;
     result <- try (Unmarshal env body)
                   (fun e => Errorf "failed to parse response: " e
                                    (LF +:+ "Body: " +:+
                                     slice body 0 (Nat.min 500 (String.length body)))) ;;
     render env result).

Definition compile (env : Env) (baseURL compiler filePath args : string)
           (showSource : bool) (projectRoot : string) : IO unit :=
  req <- prepare env filePath args showSource projectRoot ;;
  send env baseURL compiler req.

(** *** [watch]

    [fsnotify.Op] is a bit set; the values are those of the library. *)
Definition Create : Z := 1.
Definition Write : Z := 2.
Definition Remove : Z := 4.
Definition Rename : Z := 8.
Definition Chmod : Z := 16.

(** [fsnotify.Event] *)
Record Event : Type := { EvName : string; Op : Z }.

(** [time.Duration] counts nanoseconds. *)
Definition Millisecond : Z := 1000000.

(** A [*time.Timer] made by [time.AfterFunc], as the runtime holds it:
    when it is due, and whether it still waits, was stopped, or has
    started its function. *)
Inductive TimerStatus : Type := Pending | Stopped | Fired.

Record Timer : Type := { When : Z; Status : TimerStatus }.

(** The variables of the loop and the timers of the runtime; a timer is
    named by its index in [timers], and [debounce] is nil or points to one. *)
Record LoopState : Type := {
  timers : list Timer;
  debounce : option nat
}.

(** What can happen next while [watch] sits in its [select], or while the
    runtime looks at its timers. *)
Inductive input : Type :=
| RecvEvent (ev : Event)      (* event, ok := <-watcher.Events with ok *)
| EventsClosed                (* the same with !ok *)
| RecvError (err : error)     (* err, ok := <-watcher.Errors with ok *)
| ErrorsClosed
| Expire (id : nat).          (* the runtime runs the function of a due timer *)

(** What a run of [watch] or [main] does, in order.  A call of [compile]
    is one action, with the events it caused and what it returned; the
    function of a timer runs in a goroutine of its own, and its actions are
    recorded together, at the moment it starts. *)
Inductive action : Type :=
| Out (e : event)
| Compile (t : list event) (r : result unit)
| WatcherNew
| WatcherClose
| AfterFunc (id : nat) (when_ : Z)
| Stop (id : nat)
| Exit (code : Z).

Inductive WatchResult : Type :=
| Returned (err : option error)
| Blocked (st : LoopState).      (* still in the select *)

Section Watch.
(** The world at each instant, and the arguments of [watch]. *)
Variable world : Z -> Env.
Variables baseURL compiler filePath args : string.
Variable showSource : bool.
Variable projectRoot : string.

(** [compile(...)] followed by the report of its error, at time [now];
    [report] is where the error goes. *)
Definition compileAndReport (now : Z) (report : string -> event) : list action :=
  let '(t, r) := compile (world now) baseURL compiler filePath args
                         showSource projectRoot in
  Compile t r ::
  match r with
  | Err err => [Out (report (Error err))]
  | Ok _ => []
  end.

Definition reportStdout (msg : string) : event :=
  Print (ESC +:+ "[31mError: " +:+ msg +:+ ESC +:+ "[0m" +:+ LF).

(** The function given to [time.AfterFunc]. *)
Definition recompile (now : Z) : list action :=
  Out Clear ::
  Out (Print (ESC +:+ "[34m⚡ " +:+ filePath +:+ " — " +:+ Clock (world now)
                  +:+ ESC +:+ "[0m" +:+ LF +:+ LF)) ::
  compileAndReport now reportStdout.

(** The condition of line 325. *)
Definition qualifies (absPath : string) (event : Event) : bool :=
  String.eqb (EvName event) absPath
  && ((Z.land (Op event) Write =? Write) || (Z.land (Op event) Create =? Create)).

(** [t.Stop()]: only a waiting timer changes. *)
Definition stopTimer (id : nat) (ts : list Timer) : list Timer :=
  match ts !! id with
  | Some {| When := w; Status := Pending |} =>
      <[id := {| When := w; Status := Stopped |}]> ts
  | _ => ts
  end.

(** Lines 325-336 *)
Definition onEvent (absPath : string) (st : LoopState) (now : Z) (event : Event)
  : LoopState * list action :=
  if qualifies absPath event then
    let '(ts, stopped) :=
      match debounce st with
      | Some id => (stopTimer id (timers st), [Stop id])
      | None => (timers st, [])
      end in
    let id := length ts in
    let when_ := now + 100 * Millisecond in
    ({| timers := (ts ++ [{| When := when_; Status := Pending |}])%list;
        debounce := Some id |},
     (stopped ++ [AfterFunc id when_])%list)
  else (st, []).

(** The runtime starts the function of timer [id] if it waits and is due. *)
Definition onExpire (st : LoopState) (now : Z) (id : nat)
  : LoopState * list action :=
  match timers st !! id with
  | Some {| When := w; Status := Pending |} =>
      if w <=? now then
        ({| timers := <[id := {| When := w; Status := Fired |}]> (timers st);
            debounce := debounce st |},
         recompile now)
      else (st, [])
  | _ => (st, [])
  end.

(** Lines 319-343, along a schedule of timed inputs. *)
Fixpoint loop (absPath : string) (st : LoopState) (schedule : list (Z * input))
  : list action * WatchResult :=
  match schedule with
  | [] => ([], Blocked st)
  | (now, inp) :: rest =>
      match inp with
      | RecvEvent event =>
          let '(st', acts) := onEvent absPath st now event in
          let '(acts', r) := loop absPath st' rest in
          ((acts ++ acts')%list, r)
      | EventsClosed => ([], Returned None)
      | RecvError err =>
          let '(acts', r) := loop absPath st rest in
          (Out (Print (ESC +:+ "[31mWatcher error: " +:+ Error err
                           +:+ ESC +:+ "[0m" +:+ LF)) :: acts', r)
      | ErrorsClosed => ([], Returned None)
      | Expire id =>
          let '(st', acts) := onExpire st now id in
          let '(acts', r) := loop absPath st' rest in
          ((acts ++ acts')%list, r)
      end
  end.

Definition initialState : LoopState := {| timers := []; debounce := None |}.

(** [watch], started at time [start]. *)
Definition watch (start : Z) (schedule : list (Z * input))
  : list action * WatchResult :=
  let env := world start in
  match NewWatcher env with
  | Some err => ([], Returned (Some (Errorf "failed to create watcher: " err "")))
  | None =>
      (* defer watcher.Close() *)
      let closing (r : list action * WatchResult) :=
        match r with
        | (acts, Returned err) => ((acts ++ [WatcherClose])%list, Returned err)
        | (acts, Blocked st) => (acts, Blocked st)
        end in
      closing
        (let '(acts, r) :=
           match Abs env filePath with
           | Err err =>
               ([], Returned (Some (Errorf "failed to get absolute path: " err "")))
           | Ok absPath =>
               let dir := Dir absPath in
               match WatcherAdd env dir with
               | Some err =>
                   ([], Returned (Some (Errorf "failed to watch directory: " err "")))
               | None =>
                   let banner :=
                     [Out (Print (ESC +:+ "[34m⚡ Watching " +:+ filePath
                                      +:+ ESC +:+ "[0m" +:+ LF));
                      Out (Print (ESC +:+ "[34m   Compiler: " +:+ compiler
                                      +:+ ESC +:+ "[0m" +:+ LF));
                      Out (Print (ESC +:+ "[34m   Args: " +:+ args
                                      +:+ ESC +:+ "[0m" +:+ LF));
                      Out (Print (ESC +:+ "[34m   Server: " +:+ baseURL
                                      +:+ ESC +:+ "[0m" +:+ LF +:+ LF))] in
                   (* Initial compile *)
                   let first := compileAndReport start reportStdout in
                   let '(acts, r) := loop absPath initialState schedule in
                   ((banner ++ first ++ acts)%list, r)
               end
           end in
         (WatcherNew :: acts, r))
  end.

End Watch.

(** *** [main] *)

(** The flags after [flag.Parse]. *)
Record Flags : Type := {
  server : string;
  compiler_ : string;
  args_ : string;
  once : bool;
  showSource_ : bool;
  projectRoot_ : string
}.

Definition defaultFlags : Flags :=
  {| server := "https://godbolt.org";
     compiler_ := "ztrunk";
     args_ := "";
     once := false;
     showSource_ := false;
     projectRoot_ := "" |}.

Definition usage : list action :=
  map Out
    [PrintErr ("cet - Compiler Explorer Terminal" +:+ LF +:+ LF);
     PrintErr ("Usage: cet [options] <file>" +:+ LF +:+ LF);
     PrintErr ("Options:" +:+ LF);
     PrintDefaults;
     PrintErr (LF +:+ "Examples:" +:+ LF);
     PrintErr ("  cet -args='-O ReleaseFast -target aarch64-macos -mcpu=apple_m4' main.zig" +:+ LF);
     PrintErr ("  cet -compiler=g132 -args='-O3' main.c" +:+ LF);
     PrintErr ("  cet -once -source main.zig" +:+ LF);
     PrintErr ("  cet -root=. src/main.zig   # Multi-file project with imports from repo root" +:+ LF)].

Inductive Outcome : Type :=
| Exited (code : Z)
| Watching (st : LoopState).

Definition reportStderr (msg : string) : event :=
  PrintErr ("Error: " +:+ msg +:+ LF).

(** [main] after [flag.Parse]: [flags] and the remaining arguments
    [flag.Args()]. *)
Definition main (world : Z -> Env) (start : Z) (flags : Flags)
           (positional : list string) (schedule : list (Z * input))
  : list action * Outcome :=
  match positional with
  | [] => (usage, Exited 1)
  | filePath :: _ =>
      if StatIsNotExist (world start) filePath then
        ([Out (PrintErr ("Error: file " +:+ filePath +:+ " does not exist" +:+ LF))],
         Exited 1)
      else if once flags then
        let '(t, r) := compile (world start) (server flags) (compiler_ flags) filePath
                               (args_ flags) (showSource_ flags) (projectRoot_ flags) in
        match r with
        | Err err => ([Compile t r; Out (reportStderr (Error err))], Exited 1)
        | Ok _ => ([Compile t r], Exited 0)
        end
      else
        match watch world (server flags) (compiler_ flags) filePath (args_ flags)
                    (showSource_ flags) (projectRoot_ flags) start schedule with
        | (acts, Returned (Some err)) =>
            ((acts ++ [Out (reportStderr (Error err))])%list, Exited 1)
        | (acts, Returned None) => (acts, Exited 0)
        | (acts, Blocked st) => (acts, Watching st)
        end
  end.

End Cet.

(** ** The vocabulary of the properties

    Predicates and counters the statements below are written with, and
    sample worlds to run the program in. *)
Module Spec.
Import GoPath Walk Cet.

(** *** [collectProjectFiles] *)

(** [located p nm n q qnm qn anc]: in the tree [n], which [WalkDir] visits
    under the path [p] and the name [nm], the node [qn] lies where the walk
    visits it under the path [q] and the name [qnm]; [anc] lists the names
    of the directories above it, from [nm] down. *)
Inductive located : string -> string -> Node ->
                    string -> string -> Node -> list string -> Prop :=
| located_here p nm n : located p nm n p nm n []
| located_below p nm entries readErr name1 n1 q qnm qn anc :
    In (name1, n1) entries ->
    located (Join [p; name1]) name1 n1 q qnm qn anc ->
    located p nm (Directory entries readErr) q qnm qn (nm :: anc).

Definition skipNames : list string :=
  [".zig-cache"; ".git"; ".idea"; "node_modules"; "target"; "zig-out"].

(** [origin env mainFile relativeToDir p nm n e]: the entry [e] was made
    from a leaf of the tree [n] (of path [p], name [nm]) that passed every
    test of the closure. *)
Definition origin (env : Env) (mainFile relativeToDir : string)
           (p nm : string) (n : Node) (e : FileEntry) : Prop :=
  exists q qnm t anc,
    located p nm n q qnm (File t) anc /\
    Forall (fun a => skipDir a = false) anc /\
    Ext q = Ext mainFile /\ q <> mainFile /\ qnm <> "build.zig" /\
    ReadFile env q = Ok (Contents e) /\
    Rel relativeToDir q = Ok (Filename e).

(** The tree with every directory of a skipped name emptied. *)
Fixpoint prune (name : string) (n : Node) : Node :=
  match n with
  | File t => File t
  | Directory entries readErr =>
      if skipDir name then Directory [] None
      else Directory (map (fun e => (fst e, prune (fst e) (snd e))) entries) readErr
  end.

Definition pruned (root : string) (lstat : result Node) : result Node :=
  match lstat with
  | Ok n => Ok (prune (basename root) n)
  | Err e => Err e
  end.

(** [walked env searchDir path name node anc]: the walk from [searchDir]
    comes to [node] under [path] and [name], through the directories
    [anc]. *)
Definition walked (env : Env) (searchDir path name : string) (node : Node)
           (anc : list string) : Prop :=
  exists root, Lstat env searchDir = Ok root /\
               located searchDir (basename searchDir) root path name node anc.

(** [madeFrom env relativeToDir path e]: the entry [e] names [path]
    relative to [relativeToDir] and holds what reading [path] gives. *)
Definition madeFrom (env : Env) (relativeToDir path : string) (e : FileEntry) : Prop :=
  Rel relativeToDir path = Ok (Filename e) /\
  ReadFile env path = Ok (Contents e).

(** The claim that only regular files are collected, read as it is
    written: every entry is made from a regular file of the walk that has
    the extension of the main file and is not the main file. *)
Definition regularOnlyAsStated (env : Env) (searchDir mainFile relativeToDir : string)
  : Prop :=
  Forall (fun e => exists path name anc,
              walked env searchDir path name (File Regular) anc /\
              madeFrom env relativeToDir path e /\
              Ext path = Ext mainFile /\ path <> mainFile)
         (fst (collectProjectFiles env searchDir mainFile relativeToDir)).

(** *** [compile] *)

(** How many elements of [l] pass [p]. *)
Fixpoint countIf {A} (p : A -> bool) (l : list A) : nat :=
  match l with
  | [] => 0%nat
  | x :: l' => ((if p x then 1 else 0) + countIf p l')%nat
  end.

Definition isHTTPDo (e : event) : bool :=
  match e with HTTPDo _ _ _ _ => true | _ => false end.


(** The warning of line 213. *)
Definition collectWarning (err : error) : event :=
  Print (ESC +:+ "[33mWarning: could not collect project files: "
             +:+ Error err +:+ ESC +:+ "[0m" +:+ LF).

(** The directory [compile] searches. *)
Definition searchDirOf (env : Env) (absPath projectRoot : string) : result string :=
  if negb (String.eqb projectRoot "") then Abs env projectRoot else Ok (Dir absPath).

(** No request is among the events [t]. *)
Definition quiet (t : list event) : Prop := Forall (fun e => isHTTPDo e = false) t.

(** Every [Compile] action of the loop is a call of [compile] with the
    arguments of [watch], in the world of its moment. *)
Definition plainCall (world : Z -> Env) (baseURL compiler filePath args : string)
           (showSource : bool) (projectRoot : string) (a : action) : Prop :=
  forall t r, a = Compile t r ->
              exists now, compile (world now) baseURL compiler filePath args
                                  showSource projectRoot = (t, r).

(** *** [watch] and [main] *)

Definition isCompile (a : action) : bool :=
  match a with Compile _ _ => true | _ => false end.

Definition isAfterFunc (a : action) : bool :=
  match a with AfterFunc _ _ => true | _ => false end.

Definition compileCount (acts : list action) : nat := countIf isCompile acts.

Definition afterFuncCount (acts : list action) : nat := countIf isAfterFunc acts.

Definition isPending (tm : Timer) : bool :=
  match Status tm with Pending => true | _ => false end.

Definition pendingCount (st : LoopState) : nat := countIf isPending (timers st).

(** The inputs the loop gets to: those before a channel is found closed. *)
Fixpoint handled (schedule : list (Z * input)) : list (Z * input) :=
  match schedule with
  | [] => []
  | (now, inp) :: rest =>
      match inp with
      | EventsClosed | ErrorsClosed => []
      | _ => (now, inp) :: handled rest
      end
  end.

Definition isQualifying (absPath : string) (x : Z * input) : bool :=
  match snd x with
  | RecvEvent event => qualifies absPath event
  | _ => false
  end.

(** When the last qualifying event among the handled inputs was received,
    [last] if there is none. *)
Fixpoint lastQualifying (absPath : string) (last : option Z)
         (schedule : list (Z * input)) : option Z :=
  match schedule with
  | [] => last
  | (now, inp) :: rest =>
      match inp with
      | RecvEvent event =>
          lastQualifying absPath (if qualifies absPath event then Some now else last) rest
      | EventsClosed | ErrorsClosed => last
      | _ => lastQualifying absPath last rest
      end
  end.

(** The debounce invariant: a timer that still waits is the one [debounce]
    points to, and it is due 100 ms after the time [last]. *)
Definition debounced (last : option Z) (st : LoopState) : Prop :=
  forall (id : nat) (tm : Timer),
    timers st !! id = Some tm -> Status tm = Pending ->
    debounce st = Some id /\
    exists t, last = Some t /\ When tm = t + 100 * Millisecond.

(** The claim about the two ways a compile is triggered, read as it is
    written: with [-once] one compile and no watcher; without it the initial
    compile of [watch], and after it no more compiles than qualifying events. *)
Definition triggersAsStated (world : Z -> Env) (start : Z) (flags : Flags)
           (positional : list string) (schedule : list (Z * input)) : Prop :=
  let acts := fst (main world start flags positional schedule) in
  (once flags = true -> compileCount acts = 1%nat /\ ~ In WatcherNew acts) /\
  (once flags = false ->
   (1 <= compileCount acts)%nat /\
   forall absPath, Abs (world start) (hd "" positional) = Ok absPath ->
                   (compileCount acts
                    <= 1 + countIf (isQualifying absPath) (handled schedule))%nat).

(** The watcher could be set up: lines 290-304 all succeed. *)
Definition watcherReady (env : Env) (filePath absPath : string) : Prop :=
  NewWatcher env = None /\
  Abs env filePath = Ok absPath /\
  WatcherAdd env (Dir absPath) = None.

(** [event.Op] has every bit of [op]. *)
Definition includes (event : Event) (op : Z) : Prop := Z.land (Op event) op = op.

(** *** Sample worlds *)

Definition sourceTree : Node :=
  Directory
    [("build.zig", File Regular);
     ("lib.zig", File Symlink);
     ("main.zig", File Regular);
     ("notes.txt", File Regular);
     ("util", Directory [("helper.zig", File Regular)] None);
     ("zig-out", Directory [("gen.zig", File Regular)] None)]
    None.

Definition lowerByte (c : ascii) : ascii :=
  let n := nat_of_ascii c in
  if (65 <=? n)%nat && (n <=? 90)%nat then ascii_of_nat (n + 32) else c.

Fixpoint lower (s : string) : string :=
  match s with
  | EmptyString => EmptyString
  | String c r => String (lowerByte c) (lower r)
  end.

Definition showRequest (r : CompileRequest) : string :=
  "{source:" +:+ Source r +:+ ",args:" +:+ UserArguments (Options r)
  +:+ ",files:[" +:+ String.concat ";" (map Filename (Files r)) +:+ "]}".

(** A project in [/proj/src], a server that answers every request. *)
Definition sampleEnv : Env :=
  {| Lstat := fun p =>
       if String.eqb p "/proj/src" then Ok sourceTree
       else Err (ErrNew ("lstat " +:+ p +:+ ": no such file or directory"));
     ReadFile := fun p => Ok ("// " +:+ p);
     Getwd := Ok "/proj";
     StatIsNotExist := fun _ => false;
     ToLower := lower;
     Marshal := fun r => Ok (showRequest r);
     Unmarshal := fun body =>
       Ok {| Code := 0; Stdout := []; Stderr := [];
             Asm := [{| AsmText := body; AsmSource_ := None |}] |};
     chroma := fun _ code => Ok code;
     NewRequest := fun _ _ => None;
     Do := fun _ _ _ _ => Ok (Ok "main: ret");
     NewWatcher := None;
     WatcherAdd := fun _ => None;
     Clock := "12:00:00" |}.

Definition withLstat (f : string -> result Node) (env : Env) : Env :=
  {| Lstat := f; ReadFile := ReadFile env; Getwd := Getwd env;
     StatIsNotExist := StatIsNotExist env; ToLower := ToLower env;
     Marshal := Marshal env; Unmarshal := Unmarshal env; chroma := chroma env;
     NewRequest := NewRequest env; Do := Do env; NewWatcher := NewWatcher env;
     WatcherAdd := WatcherAdd env; Clock := Clock env |}.

Definition withReadFile (f : string -> result string) (env : Env) : Env :=
  {| Lstat := Lstat env; ReadFile := f; Getwd := Getwd env;
     StatIsNotExist := StatIsNotExist env; ToLower := ToLower env;
     Marshal := Marshal env; Unmarshal := Unmarshal env; chroma := chroma env;
     NewRequest := NewRequest env; Do := Do env; NewWatcher := NewWatcher env;
     WatcherAdd := WatcherAdd env; Clock := Clock env |}.

Definition withDo
           (f : string -> string -> list (string * string) -> string -> result (result string))
           (env : Env) : Env :=
  {| Lstat := Lstat env; ReadFile := ReadFile env; Getwd := Getwd env;
     StatIsNotExist := StatIsNotExist env; ToLower := ToLower env;
     Marshal := Marshal env; Unmarshal := Unmarshal env; chroma := chroma env;
     NewRequest := NewRequest env; Do := f; NewWatcher := NewWatcher env;
     WatcherAdd := WatcherAdd env; Clock := Clock env |}.

Definition withNewWatcher (w : option error) (env : Env) : Env :=
  {| Lstat := Lstat env; ReadFile := ReadFile env; Getwd := Getwd env;
     StatIsNotExist := StatIsNotExist env; ToLower := ToLower env;
     Marshal := Marshal env; Unmarshal := Unmarshal env; chroma := chroma env;
     NewRequest := NewRequest env; Do := Do env; NewWatcher := w;
     WatcherAdd := WatcherAdd env; Clock := Clock env |}.

(** The same project with [lib.zig] and [main.zig] only; [lib.zig] is a
    symbolic link. *)
Definition linkTree : Node :=
  Directory [("lib.zig", File Symlink); ("main.zig", File Regular)] None.

Definition linkEnv : Env :=
  withLstat (fun p => if String.eqb p "/proj/src" then Ok linkTree
                      else Err (ErrNew "no such file or directory"))
            sampleEnv.

(** [util/helper.zig] cannot be read. *)
Definition unreadableEnv : Env :=
  withReadFile (fun p => if String.eqb p "/proj/src/util/helper.zig"
                         then Err (ErrNew "open /proj/src/util/helper.zig: permission denied")
                         else Ok ("// " +:+ p))
               sampleEnv.

(** The server cannot be reached. *)
Definition offlineEnv : Env :=
  withDo (fun _ _ _ _ => Err (ErrNew "dial tcp: connection refused")) sampleEnv.

(** No watcher can be made. *)
Definition noWatcherEnv : Env :=
  withNewWatcher (Some (ErrNew "too many open files")) sampleEnv.

(** A schedule for the samples: two writes of the watched file two
    nanoseconds apart, then a write of another file. *)
Definition sampleSchedule : list (Z * input) :=
  [(5, RecvEvent {| EvName := "/proj/src/main.zig"; Op := Write |});
   (7, RecvEvent {| EvName := "/proj/src/main.zig"; Op := Z.lor Write Chmod |});
   (8, RecvEvent {| EvName := "/proj/src/other.zig"; Op := Write |})].

End Spec.

(** ** Further vocabulary

    What the later parts say about the edges of the walk, the shape of a
    call of [compile], and the accounts of the timers. *)
Module SpecMore.
Import GoPath Walk Cet Spec.

(** *** Of [collectProjectFiles] *)

(** [err] is none of the sentinels of [io/fs]. *)
Definition plainError (e : error) : Prop := isSkipDir e = false /\ isSkipAll e = false.

(** No [os.ReadDir] error recorded in the tree is a sentinel. *)
Fixpoint plainTree (n : Node) : bool :=
  match n with
  | File _ => true
  | Directory entries readErr =>
      match readErr with
      | Some e => negb (isSkipDir e || isSkipAll e)
      | None => true
      end
      && forallb (fun x => plainTree (snd x)) entries
  end.

(** No [os.ReadFile] error is a sentinel. *)
Definition plainReads (env : Env) : Prop :=
  forall path e, ReadFile env path = Err e -> plainError e.

(** What the closure looks for: a leaf outside the skipped directories,
    with the extension of the main file, that is neither the main file nor
    a [build.zig]. *)
Definition eligible (mainFile : string) (q qnm : string) (anc : list string) : Prop :=
  Forall (fun a => skipDir a = false) anc /\
  Ext q = Ext mainFile /\ q <> mainFile /\ qnm <> "build.zig".

(** Where an error of the walk comes from: reading or naming a leaf, or
    listing a directory, of the tree [n]. *)
Definition errorSource (env : Env) (relativeToDir : string)
           (p nm : string) (n : Node) (e : error) : Prop :=
  exists q qnm node anc,
    located p nm n q qnm node anc /\
    ((exists t, node = File t /\
                (ReadFile env q = Err e \/ Rel relativeToDir q = Err e)) \/
     (exists entries, node = Directory entries (Some e))).

(** *** Of [compile] *)

(** The contexts [compile] wraps its errors in. *)
Definition compileErrorPrefixes : list string :=
  ["failed to read file: ";
   "failed to get absolute path: ";
   "failed to get absolute project root: ";
   "failed to marshal request: ";
   "failed to create request: ";
   "failed to send request: ";
   "failed to read response: ";
   "failed to parse response: "].

(** The two lines [-source] prints. *)
Definition sourceLines (env : Env) (filePath source : string) : list event :=
  [Println (ESC +:+ "[36m━━━ Source ━━━" +:+ ESC +:+ "[0m");
   Println (highlight env source (getLangFromFile env filePath))].

Definition isPrint (e : event) : bool :=
  match e with Print _ => true | _ => false end.

(** Every event of [t] is a line on standard output. *)
Definition printsOnly (t : list event) : Prop := Forall (fun e => isPrint e = true) t.

Definition withUnmarshal (f : string -> result CompileResponse) (env : Env) : Env :=
  {| Lstat := Lstat env; ReadFile := ReadFile env; Getwd := Getwd env;
     StatIsNotExist := StatIsNotExist env; ToLower := ToLower env;
     Marshal := Marshal env; Unmarshal := f; chroma := chroma env;
     NewRequest := NewRequest env; Do := Do env; NewWatcher := NewWatcher env;
     WatcherAdd := WatcherAdd env; Clock := Clock env |}.

(** A gateway answers in place of the server, with a page that is no JSON. *)
Definition garbledEnv : Env :=
  withUnmarshal
    (fun _ => Err (ErrNew "invalid character '<' looking for beginning of value"))
    (withDo (fun _ _ _ _ => Ok (Ok "<html>502 Bad Gateway</html>")) sampleEnv).

(** *** Of [watch] *)

(** A channel is found closed at this input. *)
Definition isClose (x : Z * input) : bool :=
  match snd x with
  | EventsClosed | ErrorsClosed => true
  | _ => false
  end.

(** The inputs come in the order of their times, none before [lo]. *)
Fixpoint timesFrom (lo : Z) (schedule : list (Z * input)) : Prop :=
  match schedule with
  | [] => True
  | (now, _) :: rest => lo <= now /\ timesFrom now rest
  end.

(** A burst: every qualifying event is received before the instant [T],
    and less than 100 ms before it. *)
Definition burst (absPath : string) (T : Z) (schedule : list (Z * input)) : Prop :=
  Forall (fun x => isQualifying absPath x = true ->
                   fst x < T /\ T <= fst x + 100 * Millisecond)
         schedule.

(** The sample schedule, then a look at each of its two timers once
    they are due. *)
Definition burstSchedule : list (Z * input) :=
  (sampleSchedule ++ [(100000006, Expire 0%nat); (100000008, Expire 1%nat)])%list.

Definition isFired (tm : Timer) : bool :=
  match Status tm with Fired => true | _ => false end.

Definition firedCount (st : LoopState) : nat := countIf isFired (timers st).

(** An input the loop lets pass: an error of the watcher, or an event that
    does not qualify. *)
Definition passes (absPath : string) (ti : Z * input) : bool :=
  match snd ti with
  | RecvEvent event => negb (qualifies absPath event)
  | RecvError _ => true
  | _ => false
  end.

(** The line printed for an error of the watcher. *)
Definition isWatcherErrorLine (a : action) : bool :=
  match a with
  | Out (Print s) => String.prefix (ESC +:+ "[31mWatcher error: ") s
  | _ => false
  end.

End SpecMore.

(** ** The path functions on the tables of Go's own tests *)
Section GoPathExamples.
Import GoPath.

Example Ext_zig : Ext "/proj/src/main.zig" = ".zig".
Proof. reflexivity. Qed.

Example Ext_last_element_only : Ext "/proj/v1.2/Makefile" = "".
Proof. reflexivity. Qed.

Example Ext_hidden : Ext "/proj/.gitignore" = ".gitignore".
Proof. reflexivity. Qed.

Example Clean_table :
  map Clean
      ["abc"; "a/b/c"; "."; ".."; "../../abc"; "/abc"; "/"; "";
       "abc/"; "./"; "../../"; "/abc/"; "abc//def//ghi"; "abc//";
       "abc/./def"; "/./abc/def"; "abc/.";
       "abc/def/ghi/../jkl"; "abc/def/../ghi/../jkl"; "abc/def/..";
       "abc/def/../.."; "/abc/def/../.."; "abc/def/../../..";
       "/abc/def/../../.."; "abc/def/../../../ghi/jkl/../../../mno";
       "/../abc"; "abc/./../def"; "abc//./../def"; "abc/../../././../def"]
  = ["abc"; "a/b/c"; "."; ".."; "../../abc"; "/abc"; "/"; ".";
     "abc"; "."; "../.."; "/abc"; "abc/def/ghi"; "abc";
     "abc/def"; "/abc/def"; "abc";
     "abc/def/jkl"; "abc/jkl"; "abc";
     "."; "/"; "..";
     "/"; "../../mno";
     "/abc"; "def"; "def"; "../../def"].
Proof. reflexivity. Qed.

Example Join_table :
  map Join [["a"; "b"]; ["a"; ""]; [""; "b"]; ["/"; "a"]; ["/"; "a/b"];
            ["/"; ""]; ["a/"; "b"]; ["a/"; ""]; [""; ""]; ["/proj/src"; "util.zig"];
            ["."; "main.zig"]]
  = ["a/b"; "a"; "b"; "/a"; "/a/b"; "/"; "a/b"; "a"; ""; "/proj/src/util.zig";
     "main.zig"].
Proof. reflexivity. Qed.

Example Dir_table :
  map Dir [""; "."; "/."; "/"; "/foo"; "x/"; "abc"; "abc/def"; "a/b/.x";
           "a/b/c."; "a/b/c.x"; "/proj/src/main.zig"]
  = ["."; "."; "/"; "/"; "/"; "x"; "."; "abc"; "a/b"; "a/b"; "a/b"; "/proj/src"].
Proof. reflexivity. Qed.

Example basename_table :
  map basename ["/proj/src"; "/proj/target/"; "."; "/"; "src"; "/proj/build.zig"]
  = ["src"; "target"; "."; "/"; "src"; "build.zig"].
Proof. reflexivity. Qed.

Example Rel_table :
  map (fun p => Rel (fst p) (snd p))
      [("a/b", "a/b"); ("a/b/.", "a/b"); ("a/b", "a/b/c"); ("a/b", "a/c");
       ("a/b", "a/b/c/d"); ("a/b/c", "a/b"); ("a/b/c/d", "a/b"); ("a/b/c", "a/c/d");
       ("/a/b", "/a/b"); ("/a/b", "/a/b/c"); ("/a/b/c/d", "/a/b"); ("/a/b", "/c/d");
       ("/", "/a/b"); ("/../../a/b", "/../../a/b/c/d"); (".", "a/b"); (".", "..");
       ("/proj/src", "/proj/src/util/helper.zig"); ("/proj/src", "/proj/lib/x.zig")]
  = map Ok
      ["."; "."; "c"; "../c";
       "c/d"; ".."; "../.."; "../../c/d";
       "."; "c"; "../.."; "../../c/d";
       "a/b"; "c/d"; "a/b"; "..";
       "util/helper.zig"; "../lib/x.zig"].
Proof. reflexivity. Qed.

Example Rel_mixed_fails :
  Rel "/proj/src" "src/util.zig"
  = Err (ErrNew "Rel: can't make src/util.zig relative to /proj/src").
Proof. reflexivity. Qed.

Example Rel_dotdot_base_fails :
  Rel ".." "a" = Err (ErrNew "Rel: can't make a relative to ..").
Proof. reflexivity. Qed.

End GoPathExamples.

(** ** The walk, one directory at a time *)
Module WalkFacts.
Import GoPath Walk.

Section WalkDirEquations.
Context {S : Type}.
Variable fn : string -> WalkArg -> S -> S * option error.

Lemma walkDir_Directory path name entries readErr s :
walkDir fn path name (Directory entries readErr) s =
let d := {| Name := name; Type_ := ModeDir |} in
match fn path (Visit d) s with
| (s1, Some e) => skipped (s1, Some e)
| (s1, None) =>
  match readErr with
  | None => walkEntries fn path entries s1
  | Some re =>
      match fn path (Failed (Some d) re) s1 with
      | (s2, Some e) => skipped (s2, Some e)
      | (s2, None) => walkEntries fn path entries s2
      end
  end
end.
Proof.
assert (Hloop : forall dirs s0,
         (fix loop (dirs : list (string * Node)) (s : S) : S * option error :=
            match dirs with
            | [] => (s, None)
            | (name1, n1) :: dirs' =>
                match walkDir fn (Join [path; name1]) name1 n1 s with
                | (s', None) => loop dirs' s'
                | (s', Some e) =>
                    if isSkipDir e then (s', None) else (s', Some e)
                end
            end) dirs s0 = walkEntries fn path dirs s0).
{ induction dirs as [|[name1 n1] dirs IH]; intros s0; simpl; [reflexivity|].
destruct (walkDir fn _ name1 n1 s0) as [s' [e|]]; [reflexivity|apply IH]. }
simpl. destruct (fn path _ s) as [s1 [e|]]; [reflexivity|].
destruct readErr as [re|]; [|apply Hloop].
destruct (fn path _ s1) as [s2 [e|]]; [reflexivity|apply Hloop].
Qed.

End WalkDirEquations.

End WalkFacts.

(** ** Properties of [collectProjectFiles] *)
Module CollectFacts.
Import GoPath Walk Cet Spec WalkFacts.

Lemma skipDir_true_iff name : skipDir name = true <-> In name skipNames.
Proof.
  unfold skipDir, skipDirs, skipNames.
  repeat (rewrite lookup_insert; case_decide;
          [subst; simpl; intuition auto|]).
  rewrite lookup_empty. simpl. split; [discriminate|].
  intros Hin. repeat (destruct Hin as [Hin|Hin]; [congruence|]). destruct Hin.
Qed.

Section Origin.
Variable env : Env.
Variables mainFile relativeToDir : string.

Let fn := collectFn env (Ext mainFile) mainFile relativeToDir.

Lemma collectFn_dir path name files :
  fn path (Visit {| Name := name; Type_ := ModeDir |}) files
  = (files, if skipDir name then Some SkipDir else None).
Proof. unfold fn, collectFn. simpl. destruct (skipDir name); reflexivity. Qed.

Lemma collectFn_failed path d err files :
  fn path (Failed d err) files = (files, Some err).
Proof. reflexivity. Qed.

Lemma collectFn_file path name t files files' err :
  fn path (Visit {| Name := name; Type_ := ModeType t |}) files = (files', err) ->
  files' = files \/
  exists e, files' = (files ++ [e])%list /\ err = None /\
            Ext path = Ext mainFile /\ path <> mainFile /\ name <> "build.zig" /\
            ReadFile env path = Ok (Contents e) /\
            Rel relativeToDir path = Ok (Filename e).
Proof.
  unfold fn, collectFn. simpl.
  destruct (String.eqb_spec (Ext path) (Ext mainFile)) as [Hext|Hext]; simpl;
    [|intros [= <- _]; now left].
  destruct (String.eqb_spec path mainFile) as [Hm|Hm]; simpl;
    [intros [= <- _]; now left|].
  destruct (String.eqb_spec name "build.zig") as [Hb|Hb]; simpl;
    [intros [= <- _]; now left|].
  destruct (ReadFile env path) as [content|e1] eqn:Hrd; [|intros [= <- _]; now left].
  destruct (Rel relativeToDir path) as [relPath|e2] eqn:Hrel; [|intros [= <- _]; now left].
  intros [= <- <-]. right. eexists. repeat split; eauto.
Qed.

Lemma origin_below p nm entries readErr name1 n1 e :
  In (name1, n1) entries ->
  skipDir nm = false ->
  origin env mainFile relativeToDir (Join [p; name1]) name1 n1 e ->
  origin env mainFile relativeToDir p nm (Directory entries readErr) e.
Proof.
  intros Hin Hskip (q & qnm & t & anc & Hloc & Hanc & H).
  exists q, qnm, t, (nm :: anc). split; [econstructor; eauto|].
  split; [constructor; auto|exact H].
Qed.

(** Whatever the walk of a tree adds to [files] has its origin there. *)
Lemma walkDir_origin n : forall p nm files files' err,
    walkDir fn p nm n files = (files', err) ->
    exists new, files' = (files ++ new)%list /\
                Forall (origin env mainFile relativeToDir p nm n) new.
Proof.
  induction n as [t|entries readErr IH] using Node_tree_ind; intros p nm files files' err.
  - intros H. apply (collectFn_file p nm t) in H as [->|(e & -> & _ & H)].
    + exists []. split; [now rewrite app_nil_r|constructor].
    + exists [e]. split; [reflexivity|]. constructor; [|constructor].
      exists p, nm, t, []. split; [constructor|]. split; [constructor|exact H].
  - rewrite walkDir_Directory. cbv zeta. rewrite collectFn_dir.
    destruct (skipDir nm) eqn:Hskip.
    { simpl. intros [= <- _]. exists []. split; [now rewrite app_nil_r|constructor]. }
    assert (Hent : forall dirs, (forall x, In x dirs -> In x entries) ->
               forall files files' err,
                 walkEntries fn p dirs files = (files', err) ->
                 exists new, files' = (files ++ new)%list /\
                             Forall (origin env mainFile relativeToDir p nm (Directory entries readErr)) new).
    { induction dirs as [|[name1 n1] dirs IHd]; intros Hsub fs fs' er; cbn [walkEntries].
      - intros [= <- _]. exists []. split; [now rewrite app_nil_r|constructor].
      - destruct (walkDir fn (Join [p; name1]) name1 n1 fs) as [s' o] eqn:Hw.
        assert (Hin : In (name1, n1) entries) by (apply Hsub; now left).
        rewrite List.Forall_forall in IH. specialize (IH _ Hin). simpl in IH.
        apply IH in Hw as (new1 & -> & Hnew1).
        assert (Hnew1' : Forall (origin env mainFile relativeToDir p nm (Directory entries readErr)) new1).
        { eapply List.Forall_impl; [|exact Hnew1]. intros e He.
          eapply origin_below; eauto. }
        destruct o as [e|]; intros H.
        + exists new1. split; [|exact Hnew1'].
          destruct (isSkipDir e); injection H as <- _; reflexivity.
        + apply IHd in H as (new2 & -> & Hnew2);
            [|intros x Hx; apply Hsub; now right].
          exists (new1 ++ new2)%list. split; [now rewrite app_assoc|].
          apply Forall_app; split; auto. }
    destruct readErr as [re|].
    + rewrite collectFn_failed. simpl.
      exists []. split; [|constructor].
      rewrite app_nil_r. destruct (isSkipDir re); injection H as <- _; reflexivity.
    + intros H. eapply Hent; eauto.
Qed.

End Origin.

Lemma collectFn_ReadFile env1 env2 ext mainFile relativeToDir :
  (forall path, ReadFile env1 path = ReadFile env2 path) ->
  forall path a files,
    collectFn env1 ext mainFile relativeToDir path a files
    = collectFn env2 ext mainFile relativeToDir path a files.
Proof.
  intros Hrd path a files. unfold collectFn. now rewrite Hrd.
Qed.

Section WalkExt.
Context {S : Type}.
Variables fn1 fn2 : string -> WalkArg -> S -> S * option error.
Hypothesis Hfn : forall path a s, fn1 path a s = fn2 path a s.

Lemma walkDir_ext n : forall p nm s, walkDir fn1 p nm n s = walkDir fn2 p nm n s.
Proof.
  induction n as [t|entries readErr IH] using Node_tree_ind; intros p nm s.
  - simpl. apply Hfn.
  - rewrite !walkDir_Directory. cbv zeta. rewrite !Hfn.
    assert (Hent : forall s0, walkEntries fn1 p entries s0 = walkEntries fn2 p entries s0).
    { induction IH as [|[name1 n1] dirs Hn1 _ IHd]; intros s0; [reflexivity|].
      cbn [walkEntries]. simpl in Hn1. rewrite Hn1.
      destruct (walkDir fn2 _ name1 n1 s0) as [s' [e|]]; [reflexivity|apply IHd]. }
    destruct (fn2 p _ s) as [s1 [e|]]; [reflexivity|].
    destruct readErr as [re|]; [|apply Hent].
    rewrite Hfn. destruct (fn2 p _ s1) as [s2 [e|]]; [reflexivity|apply Hent].
Qed.
End WalkExt.

Lemma walkDir_prune env ext mainFile relativeToDir n : forall p nm files,
    walkDir (collectFn env ext mainFile relativeToDir) p nm (prune nm n) files
    = walkDir (collectFn env ext mainFile relativeToDir) p nm n files.
Proof.
  induction n as [t|entries readErr IH] using Node_tree_ind; intros p nm files.
  - reflexivity.
  - cbn [prune]. destruct (skipDir nm) eqn:Hskip.
    + rewrite !walkDir_Directory. cbv zeta. unfold collectFn at 1 3. simpl.
      rewrite Hskip. reflexivity.
    + rewrite !walkDir_Directory. cbv zeta.
      set (fn := collectFn env ext mainFile relativeToDir) in *.
      assert (Hent : forall s0,
                 walkEntries fn p (map (fun e => (fst e, prune (fst e) (snd e))) entries) s0
                 = walkEntries fn p entries s0).
      { induction IH as [|[name1 n1] dirs Hn1 _ IHd]; intros s0; [reflexivity|].
        cbn [map walkEntries fst snd]. simpl in Hn1. rewrite Hn1.
        destruct (walkDir fn _ name1 n1 s0) as [s' [e|]]; [reflexivity|apply IHd]. }
      destruct (fn p _ files) as [s1 [e|]]; [reflexivity|].
      destruct readErr as [re|]; [|apply Hent].
      destruct (fn p _ s1) as [s2 [e|]]; [reflexivity|apply Hent].
Qed.

Lemma collect_pruned env1 env2 searchDir mainFile relativeToDir :
  (forall path, ReadFile env1 path = ReadFile env2 path) ->
  pruned searchDir (Lstat env1 searchDir) = pruned searchDir (Lstat env2 searchDir) ->
  collectProjectFiles env1 searchDir mainFile relativeToDir
  = collectProjectFiles env2 searchDir mainFile relativeToDir.
Proof.
  intros Hrd Hpr. unfold collectProjectFiles, WalkDir.
  destruct (Lstat env1 searchDir) as [n1|e1], (Lstat env2 searchDir) as [n2|e2];
    simpl in Hpr; try discriminate.
  - injection Hpr as Hpr.
    rewrite <- (walkDir_prune env1), Hpr, walkDir_prune.
    rewrite (walkDir_ext _ _ (collectFn_ReadFile env1 env2 _ _ _ Hrd)). reflexivity.
  - injection Hpr as ->. reflexivity.
Qed.

Lemma collect_origin env searchDir mainFile relativeToDir :
  Forall (fun e => exists root,
              Lstat env searchDir = Ok root /\
              origin env mainFile relativeToDir searchDir (basename searchDir) root e)
         (fst (collectProjectFiles env searchDir mainFile relativeToDir)).
Proof.
  unfold collectProjectFiles, WalkDir.
  destruct (Lstat env searchDir) as [root|e0].
  - destruct (walkDir _ searchDir (basename searchDir) root []) as [files err] eqn:Hw.
    apply walkDir_origin in Hw as (new & -> & Hnew).
    assert (Hgoal : Forall (fun e => exists root0, Ok root = Ok root0 /\
                       origin env mainFile relativeToDir searchDir
                              (basename searchDir) root0 e) new).
    { eapply List.Forall_impl; [|exact Hnew]. intros e He. eauto. }
    destruct err as [e|]; exact Hgoal.
  - simpl. destruct (isSkipDir e0 || isSkipAll e0); constructor.
Qed.

Example collect_sample :
  collectProjectFiles sampleEnv "/proj/src" "/proj/src/main.zig" "/proj/src"
  = ([{| Filename := "lib.zig"; Contents := "// /proj/src/lib.zig" |};
      {| Filename := "util/helper.zig"; Contents := "// /proj/src/util/helper.zig" |}],
     None).
Proof. vm_compute. reflexivity. Qed.

(** A search directory that is itself named like a skipped directory
    yields nothing. *)
Example collect_skipped_root :
  collectProjectFiles
    (withLstat (fun _ => Ok sourceTree) sampleEnv)
    "/proj/target" "/proj/target/main.zig" "/proj/target"
  = ([], None).
Proof. vm_compute. reflexivity. Qed.

(** The files read before an error are returned with the error. *)
Example collect_partial :
  collectProjectFiles unreadableEnv "/proj/src" "/proj/src/main.zig" "/proj/src"
  = ([{| Filename := "lib.zig"; Contents := "// /proj/src/lib.zig" |}],
     Some (ErrNew "open /proj/src/util/helper.zig: permission denied")).
Proof. vm_compute. reflexivity. Qed.

Lemma collect_entries env searchDir mainFile relativeToDir
      (P : string -> string -> FileType -> list string -> Prop) :
  (forall path name t anc,
      Forall (fun a => skipDir a = false) anc ->
      Ext path = Ext mainFile -> path <> mainFile -> name <> "build.zig" ->
      P path name t anc) ->
  Forall (fun e => exists path name t anc,
              walked env searchDir path name (File t) anc /\
              madeFrom env relativeToDir path e /\
              P path name t anc)
         (fst (collectProjectFiles env searchDir mainFile relativeToDir)).
Proof.
  intros HP. eapply List.Forall_impl; [|apply collect_origin].
  intros e (root & Hroot & q & qnm & t & anc & Hloc & Hanc & Hext & Hne & Hb & Hrd & Hrel).
  exists q, qnm, t, anc. split; [exists root; auto|]. split; [split; auto|].
  apply HP; auto.
Qed.

(** C1 as it is written fails on a symbolic link: [lib.zig] is collected,
    and no regular file of the walk is what it is made from. *)
Lemma regular_only_counterexample :
  collectProjectFiles linkEnv "/proj/src" "/proj/src/main.zig" "/proj/src"
  = ([{| Filename := "lib.zig"; Contents := "// /proj/src/lib.zig" |}], None) /\
  walked linkEnv "/proj/src" "/proj/src/lib.zig" "lib.zig" (File Symlink) ["src"] /\
  ~ regularOnlyAsStated linkEnv "/proj/src" "/proj/src/main.zig" "/proj/src".
Proof.
  split; [vm_compute; reflexivity|]. split.
  - exists linkTree. split; [reflexivity|].
    change "/proj/src/lib.zig" with (Join ["/proj/src"; "lib.zig"]).
    change (basename "/proj/src") with "src".
    eapply located_below; [left; reflexivity|constructor].
  - unfold regularOnlyAsStated.
    replace (fst (collectProjectFiles linkEnv "/proj/src" "/proj/src/main.zig" "/proj/src"))
      with [{| Filename := "lib.zig"; Contents := "// /proj/src/lib.zig" |}]
      by (vm_compute; reflexivity).
    intros H. inversion H as [|e l (path & name & anc & Hw & _ & _ & Hne) _]; subst.
    destruct Hw as (root & Hroot & Hloc).
    change (Lstat linkEnv "/proj/src") with (Ok linkTree) in Hroot.
    injection Hroot as <-. unfold linkTree in Hloc.
    inversion Hloc as [|? ? ? ? name1 n1 ? ? ? ? Hin Hbelow]; subst.
    destruct Hin as [Hin|[Hin|[]]]; injection Hin as <- <-.
    + inversion Hbelow.
    + inversion Hbelow; subst. apply Hne. vm_compute. reflexivity.
Qed.

(** C1, amended.  Every entry of the returned list is made from an entry of
    the walk that is not a directory (a regular file, or a symbolic link or
    other special file that could be read), whose path has the extension of
    the main file and differs from the main file's path. *)
Theorem collected_have_main_extension env searchDir mainFile relativeToDir :
  Forall (fun e => exists path name t anc,
              walked env searchDir path name (File t) anc /\
              madeFrom env relativeToDir path e /\
              Ext path = Ext mainFile /\ path <> mainFile)
         (fst (collectProjectFiles env searchDir mainFile relativeToDir)).
Proof. apply collect_entries. auto. Qed.

(** C2.  No entry comes from below a directory named [.zig-cache], [.git],
    [.idea], [node_modules], [target] or [zig-out]: each entry is made from
    a file reached through directories of other names only, and what lies
    in directories of those names has no influence on the result at all. *)
Theorem collected_avoid_skipped_dirs env searchDir mainFile relativeToDir :
  Forall (fun e => exists path name t anc,
              walked env searchDir path name (File t) anc /\
              madeFrom env relativeToDir path e /\
              Forall (fun dir => ~ In dir skipNames) anc)
         (fst (collectProjectFiles env searchDir mainFile relativeToDir)) /\
  (forall env',
      (forall path, ReadFile env path = ReadFile env' path) ->
      pruned searchDir (Lstat env searchDir) = pruned searchDir (Lstat env' searchDir) ->
      collectProjectFiles env searchDir mainFile relativeToDir
      = collectProjectFiles env' searchDir mainFile relativeToDir).
Proof.
  split.
  - apply collect_entries. intros path name t anc Hanc _ _ _.
    eapply List.Forall_impl; [|exact Hanc].
    intros dir Hdir Hin. apply skipDir_true_iff in Hin. congruence.
  - intros env' Hrd Hpr. now apply collect_pruned.
Qed.

(** With the contents of [zig-out] replaced by other files the result is
    the same. *)
Lemma collected_avoid_skipped_dirs_witness :
  collectProjectFiles sampleEnv "/proj/src" "/proj/src/main.zig" "/proj/src"
  = collectProjectFiles
      (withLstat
         (fun _ => Ok (Directory
                         [("build.zig", File Regular);
                          ("lib.zig", File Symlink);
                          ("main.zig", File Regular);
                          ("notes.txt", File Regular);
                          ("util", Directory [("helper.zig", File Regular)] None);
                          ("zig-out", Directory [("other.zig", File Regular);
                                                 ("deep", Directory [] (Some (ErrNew "EIO")))]
                                                None)]
                         None))
         sampleEnv)
      "/proj/src" "/proj/src/main.zig" "/proj/src".
Proof.
  apply (proj2 (collected_avoid_skipped_dirs sampleEnv "/proj/src" "/proj/src/main.zig"
                                             "/proj/src")).
  - intros path. reflexivity.
  - vm_compute. reflexivity.
Defined.

(** C3.  The result is a list of [FileEntry] values, each of two strings:
    the [Filename] is what [filepath.Rel] makes of the file's path against
    the relative-to directory, and the [Contents] is what [os.ReadFile]
    returned for that path. *)
Theorem collected_are_relative_with_contents env searchDir mainFile relativeToDir :
  Forall (fun e : FileEntry =>
            exists path name t anc,
              walked env searchDir path name (File t) anc /\
              Rel relativeToDir path = Ok (Filename e) /\
              ReadFile env path = Ok (Contents e))
         (fst (collectProjectFiles env searchDir mainFile relativeToDir)).
Proof.
  eapply List.Forall_impl; [|apply (collect_entries _ _ _ _ (fun _ _ _ _ => True)); auto].
  intros e (path & name & t & anc & Hw & [Hrel Hrd] & _). eauto 8.
Qed.

(** C9.  A file named [build.zig] is never collected: visiting one leaves
    the list as it is, whatever the extension looked for, and every entry
    of the result is made from a file of another name. *)
Theorem build_zig_never_collected env searchDir mainFile relativeToDir :
  (forall ext path t files,
      collectFn env ext mainFile relativeToDir path
                (Visit {| Name := "build.zig"; Type_ := ModeType t |}) files
      = (files, None)) /\
  Forall (fun e => exists path name t anc,
              walked env searchDir path name (File t) anc /\
              madeFrom env relativeToDir path e /\
              name <> "build.zig")
         (fst (collectProjectFiles env searchDir mainFile relativeToDir)).
Proof.
  split.
  - intros ext path t files. unfold collectFn. cbn [IsDir Type_ Name].
    change ("build.zig" =? "build.zig")%string with true.
    now rewrite !orb_true_r.
  - apply collect_entries. auto.
Qed.

End CollectFacts.

(** ** Properties of [compile] *)
Module CompileFacts.
Import GoPath Walk Cet Spec.

Lemma countIf_app {A} (p : A -> bool) l1 l2 :
  countIf p (l1 ++ l2) = (countIf p l1 + countIf p l2)%nat.
Proof. induction l1 as [|x l1 IH]; simpl; [reflexivity|]. rewrite IH. lia. Qed.

Lemma countIf_none {A} (p : A -> bool) l :
  Forall (fun x => p x = false) l -> countIf p l = 0%nat.
Proof. induction 1 as [|x l Hx _ IH]; simpl; [reflexivity|]. now rewrite Hx, IH. Qed.

Lemma forEach_Print {A} (l : list A) (f : A -> string) :
  forEach l (fun x => emit (Print (f x))) = (map (fun x => Print (f x)) l, Ok tt).
Proof.
  induction l as [|x l IH]; [reflexivity|].
  cbn [forEach map]. rewrite IH. reflexivity.
Qed.

Lemma quiet_app t1 t2 : quiet t1 -> quiet t2 -> quiet (t1 ++ t2).
Proof. intros H1 H2. apply Forall_app; split; assumption. Qed.

Lemma quiet_prints {A} (l : list A) (f : A -> string) :
  quiet (map (fun x => Print (f x)) l).
Proof. induction l; constructor; auto. Qed.

(** What [render] prints: nothing else happens, and it returns nil. *)
Lemma render_quiet env result :
  exists t, render env result = (t, Ok tt) /\ quiet t.
Proof.
  unfold render, Println. rewrite !forEach_Print.
  unfold bind, when, emit, ret.
  destruct (0 <? length (Asm result))%nat; eexists; (split; [reflexivity|]);
    repeat apply quiet_app; try apply quiet_prints; repeat constructor.
Qed.



(** [send], outcome by outcome. *)
Lemma send_cases env baseURL compiler req :
  let url := compileURL baseURL compiler in
  send env baseURL compiler req =
  match Marshal env req with
  | Err e => ([], Err (Errorf "failed to marshal request: " e ""))
  | Ok jsonData =>
      let sent := HTTPDo "POST" url requestHeader jsonData in
      match NewRequest env "POST" url with
      | Some e => ([], Err (Errorf "failed to create request: " e ""))
      | None =>
          match Do env "POST" url requestHeader jsonData with
          | Err e => ([sent], Err (Errorf "failed to send request: " e ""))
          | Ok (Err e) =>
              ([sent; BodyClose], Err (Errorf "failed to read response: " e ""))
          | Ok (Ok body) =>
              match Unmarshal env body with
              | Err e =>
                  ([sent; BodyClose],
                   Err (Errorf "failed to parse response: " e
                               (LF +:+ "Body: " +:+
                                slice body 0 (Nat.min 500 (String.length body)))))
              | Ok result =>
                  (((sent :: fst (render env result)) ++ [BodyClose])%list, Ok tt)
              end
          end
      end
  end.
Proof.
  cbv zeta. unfold send, bind, try, ret, clientDo, defer.
  destruct (Marshal env req) as [jsonData|e]; [|reflexivity].
  destruct (NewRequest env "POST" _) as [e|]; [reflexivity|].
  destruct (Do env "POST" _ requestHeader jsonData) as [[body|e]|e]; try reflexivity.
  destruct (Unmarshal env body) as [result|e]; [|reflexivity].
  destruct (render_quiet env result) as (t & -> & _). reflexivity.
Qed.




(** [compile] is [prepare], then [send] if there is a request. *)
Lemma compile_cases env baseURL compiler filePath args showSource projectRoot :
  compile env baseURL compiler filePath args showSource projectRoot =
  match prepare env filePath args showSource projectRoot with
  | (t, Ok req) =>
      let '(t', r) := send env baseURL compiler req in ((t ++ t')%list, r)
  | (t, Err e) => (t, Err e)
  end.
Proof. reflexivity. Qed.

(** On success [prepare] returns the request made of the file, the
    collected files and the arguments, and of nothing else. *)
Lemma prepare_request env filePath args showSource projectRoot t req :
  prepare env filePath args showSource projectRoot = (t, Ok req) ->
  exists source files,
    ReadFile env filePath = Ok source /\
    snd (projectFilesOf env filePath projectRoot) = Ok files /\
    req = mkRequest source files args.
Proof.
  unfold prepare, bind, try, ret.
  destruct (ReadFile env filePath) as [source|e]; [|discriminate].
  destruct (when showSource _) as [t0 [[]|e]] eqn:Hwhen.
  2:{ exfalso. unfold when, bind, emit in Hwhen. destruct showSource; discriminate. }
  destruct (projectFilesOf env filePath projectRoot) as [t1 [files|e]]; [|discriminate].
  intros [= _ <-]. eauto.
Qed.

Section Calls.
Variable world : Z -> Env.
Variables baseURL compiler filePath args : string.
Variable showSource : bool.
Variable projectRoot : string.

Let plain := plainCall world baseURL compiler filePath args showSource projectRoot.

Lemma compileAndReport_plain now report :
  Forall plain (compileAndReport world baseURL compiler filePath args
                                 showSource projectRoot now report).
Proof.
  unfold compileAndReport.
  destruct (compile (world now) baseURL compiler filePath args showSource projectRoot)
    as [t r] eqn:Hc.
  constructor.
  - intros t' r' [= <- <-]. eauto.
  - destruct r; repeat constructor; intros t' r' H; discriminate.
Qed.

Lemma onEvent_plain absPath st now event :
  Forall plain (snd (onEvent absPath st now event)).
Proof.
  unfold onEvent. destruct (qualifies absPath event); [|constructor].
  destruct (debounce st); simpl; repeat constructor; intros t r H; discriminate.
Qed.

Lemma onExpire_plain st now id :
  Forall plain (snd (onExpire world baseURL compiler filePath args
                              showSource projectRoot st now id)).
Proof.
  unfold onExpire. destruct (timers st !! id) as [[w []]|]; try constructor.
  destruct (w <=? now)%Z; [|constructor]. unfold recompile. simpl.
  repeat (constructor; [intros t r H; discriminate|]).
  apply compileAndReport_plain.
Qed.

Lemma loop_plain absPath schedule : forall st,
    Forall plain (fst (loop world baseURL compiler filePath args
                            showSource projectRoot absPath st schedule)).
Proof.
  induction schedule as [|[now inp] rest IH]; intros st; [constructor|].
  cbn [loop]. destruct inp as [event| |err| |id].
  - pose proof (onEvent_plain absPath st now event) as H.
    destruct (onEvent absPath st now event) as [st' acts].
    specialize (IH st'). destruct (loop _ _ _ _ _ _ _ _ st' rest) as [acts' r].
    apply Forall_app; split; assumption.
  - constructor.
  - specialize (IH st). destruct (loop _ _ _ _ _ _ _ _ st rest) as [acts' r].
    constructor; [intros t r' H; discriminate|assumption].
  - constructor.
  - pose proof (onExpire_plain st now id) as H.
    destruct (onExpire _ _ _ _ _ _ _ st now id) as [st' acts].
    specialize (IH st'). destruct (loop _ _ _ _ _ _ _ _ st' rest) as [acts' r].
    apply Forall_app; split; assumption.
Qed.

Lemma watch_plain start schedule :
  Forall plain (fst (watch world baseURL compiler filePath args
                           showSource projectRoot start schedule)).
Proof.
  unfold watch. destruct (NewWatcher (world start)); [constructor|].
  assert (Hclose : forall r : list action * WatchResult,
             Forall plain (fst r) ->
             Forall plain (fst (match r with
                                | (acts, Returned err) =>
                                    ((acts ++ [WatcherClose])%list, Returned err)
                                | (acts, Blocked st) => (acts, Blocked st)
                                end))).
  { intros [acts [err|st]] H; [|exact H]. apply Forall_app; split; [exact H|].
    repeat constructor. intros t r H0; discriminate. }
  apply Hclose.
  destruct (Abs (world start) filePath) as [absPath|e].
  2:{ repeat constructor. intros t r H; discriminate. }
  destruct (WatcherAdd (world start) (Dir absPath)).
  { repeat constructor. intros t r H; discriminate. }
  pose proof (loop_plain absPath schedule initialState) as Hl.
  destruct (loop _ _ _ _ _ _ _ _ initialState schedule) as [acts r].
  cbn [fst] in *. constructor; [intros t r' H; discriminate|].
  repeat (constructor; [intros t r' H; discriminate|]).
  apply Forall_app; split; [apply compileAndReport_plain|exact Hl].
Qed.

End Calls.

(** C4.  Each compile is independent and stateless: the request [compile]
    builds is determined by the content of the file, the collected project
    files and the compiler arguments, so two runs that agree on these build
    the same request (source, files, user arguments, filters), whatever
    else differs between them; and every compile that [watch] performs is a
    plain call of [compile] with the arguments of [watch], which takes
    nothing from an earlier call. *)
Theorem compile_request_stateless :
  (forall env1 env2 filePath1 filePath2 args showSource1 showSource2
          projectRoot1 projectRoot2 t1 t2 req1 req2,
      ReadFile env1 filePath1 = ReadFile env2 filePath2 ->
      snd (projectFilesOf env1 filePath1 projectRoot1)
      = snd (projectFilesOf env2 filePath2 projectRoot2) ->
      prepare env1 filePath1 args showSource1 projectRoot1 = (t1, Ok req1) ->
      prepare env2 filePath2 args showSource2 projectRoot2 = (t2, Ok req2) ->
      req1 = req2) /\
  (forall world baseURL compiler filePath args showSource projectRoot start schedule,
      Forall (plainCall world baseURL compiler filePath args showSource projectRoot)
             (fst (watch world baseURL compiler filePath args showSource projectRoot
                         start schedule))).
Proof.
  split.
  - intros env1 env2 fp1 fp2 args ss1 ss2 root1 root2 t1 t2 req1 req2 Hrd Hfiles H1 H2.
    apply prepare_request in H1 as (source1 & files1 & Hs1 & Hf1 & ->).
    apply prepare_request in H2 as (source2 & files2 & Hs2 & Hf2 & ->).
    congruence.
  - intros. apply watch_plain.
Qed.

(** Two runs in different worlds (one server answers, the other cannot be
    reached) and with different flags build the same request. *)
Lemma compile_request_stateless_witness :
  exists t1 t2 req1 req2,
    prepare sampleEnv "/proj/src/main.zig" "-O ReleaseFast" true "" = (t1, Ok req1) /\
    prepare offlineEnv "/proj/src/main.zig" "-O ReleaseFast" false "/proj/src"
    = (t2, Ok req2) /\
    req1 = req2.
Proof.
  do 4 eexists.
  split; [vm_compute; reflexivity|].
  split; [vm_compute; reflexivity|].
  eapply (proj1 compile_request_stateless
            sampleEnv offlineEnv "/proj/src/main.zig" "/proj/src/main.zig"
            "-O ReleaseFast" true false "" "/proj/src").
  - reflexivity.
  - vm_compute; reflexivity.
  - vm_compute; reflexivity.
  - vm_compute; reflexivity.
Defined.



(** C10.  When [collectProjectFiles] returns an error, [compile] prints the
    warning and goes on with a nil files list: the request holds the main
    source only, it is sent, and the call returns nil when the server's
    answer can be read and parsed. *)
Theorem compile_survives_collect_failure
        env baseURL compiler filePath args showSource projectRoot
        source absPath searchDir partial err :
  ReadFile env filePath = Ok source ->
  Abs env filePath = Ok absPath ->
  searchDirOf env absPath projectRoot = Ok searchDir ->
  collectProjectFiles env searchDir absPath (Dir absPath) = (partial, Some err) ->
  let run := compile env baseURL compiler filePath args showSource projectRoot in
  let req := mkRequest source [] args in
  let url := compileURL baseURL compiler in
  Files req = [] /\
  exists shown,
    prepare env filePath args showSource projectRoot
    = ((shown ++ [collectWarning err])%list, Ok req) /\
    run = (let '(t, r) := send env baseURL compiler req in
           (((shown ++ [collectWarning err]) ++ t)%list, r)) /\
    In (collectWarning err) (fst run) /\
    (forall jsonData body result,
        Marshal env req = Ok jsonData ->
        NewRequest env "POST" url = None ->
        Do env "POST" url requestHeader jsonData = Ok (Ok body) ->
        Unmarshal env body = Ok result ->
        In (HTTPDo "POST" url requestHeader jsonData) (fst run) /\
        snd run = Ok tt).
Proof.
  intros Hsrc Habs Hdir Hcollect. cbv zeta. split; [reflexivity|].
  assert (Hfiles : projectFilesOf env filePath projectRoot
                   = ([collectWarning err], Ok [])).
  { unfold projectFilesOf, bind, try, ret, emit. rewrite Habs.
    unfold searchDirOf in Hdir.
    destruct (negb (projectRoot =? "")%string).
    - rewrite Hdir, Hcollect. reflexivity.
    - injection Hdir as <-. rewrite Hcollect. reflexivity. }
  assert (Hprep : exists shown,
             prepare env filePath args showSource projectRoot
             = ((shown ++ [collectWarning err])%list, Ok (mkRequest source [] args))).
  { unfold prepare, bind, try, ret, when, emit. rewrite Hsrc, Hfiles.
    destruct showSource; eexists; cbn [app]; try reflexivity.
    instantiate (1 := [_; _]). reflexivity. }
  destruct Hprep as (shown & Hprep). exists shown. split; [exact Hprep|].
  rewrite compile_cases, Hprep.
  pose proof (send_cases env baseURL compiler (mkRequest source [] args)) as Hsend.
  cbv zeta in Hsend.
  destruct (send env baseURL compiler (mkRequest source [] args)) as [t r].
  split; [reflexivity|]. cbn [fst snd]. split.
  - apply in_or_app. left. apply in_or_app. right. now left.
  - intros jsonData body result Hm Hn Hd Hu. rewrite Hm, Hn, Hd, Hu in Hsend.
    injection Hsend as -> ->. split; [|reflexivity].
    apply in_or_app. right. now left.
Qed.

(** A sibling file that cannot be read makes the collection fail; the
    compile still succeeds, with the warning and without sibling files. *)
Lemma compile_survives_collect_failure_witness :
  snd (collectProjectFiles unreadableEnv "/proj/src" "/proj/src/main.zig" "/proj/src")
  = Some (ErrNew "open /proj/src/util/helper.zig: permission denied") /\
  In (HTTPDo "POST" "https://godbolt.org/api/compiler/ztrunk/compile" requestHeader
             "{source:// /proj/src/main.zig,args:-O2,files:[]}")
     (fst (compile unreadableEnv "https://godbolt.org" "ztrunk" "/proj/src/main.zig"
                   "-O2" false "")) /\
  snd (compile unreadableEnv "https://godbolt.org" "ztrunk" "/proj/src/main.zig"
               "-O2" false "") = Ok tt.
Proof.
  split; [reflexivity|].
  destruct (compile_survives_collect_failure
              unreadableEnv "https://godbolt.org" "ztrunk" "/proj/src/main.zig" "-O2"
              false "" "// /proj/src/main.zig" "/proj/src/main.zig" "/proj/src"
              [{| Filename := "lib.zig"; Contents := "// /proj/src/lib.zig" |}]
              (ErrNew "open /proj/src/util/helper.zig: permission denied"))
    as (_ & shown & _ & _ & _ & H);
    [reflexivity|reflexivity|reflexivity|vm_compute; reflexivity|].
  apply (H "{source:// /proj/src/main.zig,args:-O2,files:[]}" "main: ret"
           {| Code := 0; Stdout := []; Stderr := [];
              Asm := [{| AsmText := "main: ret"; AsmSource_ := None |}] |});
    reflexivity.
Defined.

End CompileFacts.

(** ** Properties of [watch] *)
Module WatchFacts.
Import GoPath Walk Cet Spec CompileFacts.

Lemma qualifies_iff absPath event :
  qualifies absPath event = true <->
  EvName event = absPath /\ (includes event Write \/ includes event Create).
Proof.
  unfold qualifies, includes.
  rewrite andb_true_iff, orb_true_iff, String.eqb_eq, !Z.eqb_eq. reflexivity.
Qed.

Lemma includes_none event :
  Z.land (Op event) (Z.lor Write Create) = 0 ->
  ~ (includes event Write \/ includes event Create).
Proof.
  unfold includes. intros H0 [H|H].
  - assert (Hw : Z.land (Op event) Write
                 = Z.land (Z.land (Op event) (Z.lor Write Create)) Write).
    { rewrite <- Z.land_assoc. reflexivity. }
    rewrite H0 in Hw. rewrite H in Hw. discriminate.
  - assert (Hc : Z.land (Op event) Create
                 = Z.land (Z.land (Op event) (Z.lor Write Create)) Create).
    { rewrite <- Z.land_assoc. reflexivity. }
    rewrite H0 in Hc. rewrite H in Hc. discriminate.
Qed.

Lemma onEvent_not_qualifying absPath st now event :
  qualifies absPath event = false -> onEvent absPath st now event = (st, []).
Proof. unfold onEvent. now intros ->. Qed.

Lemma onEvent_qualifying absPath st now event :
  qualifies absPath event = true ->
  onEvent absPath st now event =
  (let ts := match debounce st with
             | Some id => stopTimer id (timers st)
             | None => timers st
             end in
   {| timers := (ts ++ [{| When := now + 100 * Millisecond; Status := Pending |}])%list;
      debounce := Some (length ts) |},
   (match debounce st with Some id => [Stop id] | None => [] end
    ++ [AfterFunc (length (timers st)) (now + 100 * Millisecond)])%list).
Proof.
  unfold onEvent. intros ->. destruct (debounce st) as [id|]; [|reflexivity].
  assert (Hlen : length (stopTimer id (timers st)) = length (timers st)).
  { unfold stopTimer. destruct (timers st !! id) as [[w []]|]; try reflexivity.
    apply length_insert. }
  rewrite Hlen. reflexivity.
Qed.

Lemma stopTimer_length id ts : length (stopTimer id ts) = length ts.
Proof.
  unfold stopTimer. destruct (ts !! id) as [[w []]|]; try reflexivity.
  apply length_insert.
Qed.

Lemma afterFuncCount_app a b :
  afterFuncCount (a ++ b) = (afterFuncCount a + afterFuncCount b)%nat.
Proof. apply countIf_app. Qed.

Lemma compileCount_app a b :
  compileCount (a ++ b) = (compileCount a + compileCount b)%nat.
Proof. apply countIf_app. Qed.

Section Loop.
Variable world : Z -> Env.
Variables baseURL compiler filePath args : string.
Variable showSource : bool.
Variable projectRoot : string.

Let loop' := loop world baseURL compiler filePath args showSource projectRoot.
Let onExpire' := onExpire world baseURL compiler filePath args showSource projectRoot.

Lemma onEvent_afterFuncCount absPath st now event :
  afterFuncCount (snd (onEvent absPath st now event))
  = if qualifies absPath event then 1%nat else 0%nat.
Proof.
  destruct (qualifies absPath event) eqn:Hq.
  - rewrite onEvent_qualifying by exact Hq. cbn [snd].
    rewrite afterFuncCount_app. destruct (debounce st); reflexivity.
  - rewrite onEvent_not_qualifying by exact Hq. reflexivity.
Qed.

Lemma compileAndReport_counts now report :
  let acts := compileAndReport world baseURL compiler filePath args
                               showSource projectRoot now report in
  compileCount acts = 1%nat /\ afterFuncCount acts = 0%nat.
Proof.
  cbv zeta. unfold compileAndReport.
  destruct (compile _ _ _ _ _ _ _) as [t [[]|e]]; split; reflexivity.
Qed.

Lemma onExpire_afterFuncCount st now id :
  afterFuncCount (snd (onExpire' st now id)) = 0%nat.
Proof.
  unfold onExpire', onExpire.
  destruct (timers st !! id) as [[w []]|]; try reflexivity.
  destruct (w <=? now); [|reflexivity]. cbn [snd]. unfold recompile.
  cbn [afterFuncCount countIf isAfterFunc]. apply compileAndReport_counts.
Qed.

(** The timers started along a schedule are as many as the qualifying
    events the loop handled. *)
Lemma loop_afterFuncCount absPath schedule : forall st,
    afterFuncCount (fst (loop' absPath st schedule))
    = countIf (isQualifying absPath) (handled schedule).
Proof.
  induction schedule as [|[now inp] rest IH]; intros st; [reflexivity|].
  unfold loop' in *. cbn [loop handled]. destruct inp as [event| |err| |id].
  - pose proof (onEvent_afterFuncCount absPath st now event) as H.
    destruct (onEvent absPath st now event) as [st' acts].
    specialize (IH st'). destruct (loop _ _ _ _ _ _ _ _ st' rest) as [acts' r].
    cbn [fst snd countIf isQualifying] in *.
    rewrite afterFuncCount_app, H, IH. reflexivity.
  - reflexivity.
  - specialize (IH st). destruct (loop _ _ _ _ _ _ _ _ st rest) as [acts' r].
    cbn [fst snd countIf isQualifying] in *.
    change (afterFuncCount (?a :: acts')) with (afterFuncCount acts'). now rewrite IH.
  - reflexivity.
  - pose proof (onExpire_afterFuncCount st now id) as H. unfold onExpire' in H.
    destruct (onExpire _ _ _ _ _ _ _ st now id) as [st' acts].
    specialize (IH st'). destruct (loop _ _ _ _ _ _ _ _ st' rest) as [acts' r].
    cbn [fst snd countIf isQualifying] in *.
    rewrite afterFuncCount_app, H, IH. reflexivity.
Qed.

End Loop.

(** C6.  A recompile is scheduled exactly when the event names the watched
    file's absolute path and its operation includes Write or Create: only
    then does the handling of an event start a timer; an event on another
    path, or one whose operation has neither bit (Remove, Rename, Chmod and
    their combinations), changes nothing; and along a whole run the timers
    started are as many as the qualifying events received. *)
Theorem recompile_scheduled_iff :
  (forall absPath st now event,
      let '(st', acts) := onEvent absPath st now event in
      let trigger :=
        EvName event = absPath /\ (includes event Write \/ includes event Create) in
      ((exists id when_, In (AfterFunc id when_) acts) <-> trigger) /\
      (~ trigger -> st' = st /\ acts = []) /\
      (EvName event <> absPath -> st' = st /\ acts = []) /\
      (Z.land (Op event) (Z.lor Write Create) = 0 -> st' = st /\ acts = []) /\
      (In (Op event) [Remove; Rename; Chmod] -> st' = st /\ acts = [])) /\
  (forall world baseURL compiler filePath args showSource projectRoot
          absPath st schedule,
      afterFuncCount
        (fst (loop world baseURL compiler filePath args showSource projectRoot
                   absPath st schedule))
      = countIf (isQualifying absPath) (handled schedule)).
Proof.
  split; [|intros; apply loop_afterFuncCount].
  intros absPath st now event.
  destruct (onEvent absPath st now event) as [st' acts] eqn:Hon. cbv zeta.
  assert (Hno : ~ (EvName event = absPath /\
                   (includes event Write \/ includes event Create)) ->
                st' = st /\ acts = []).
  { intros Hn. rewrite <- qualifies_iff in Hn.
    rewrite onEvent_not_qualifying in Hon by now destruct (qualifies absPath event).
    now injection Hon as <- <-. }
  split; [|split; [exact Hno|split; [|split]]].
  - split.
    + intros (id & when_ & Hin).
      destruct (qualifies absPath event) eqn:Hq; [now apply qualifies_iff|].
      rewrite onEvent_not_qualifying in Hon by exact Hq.
      injection Hon as <- <-. destruct Hin.
    + intros Ht. apply qualifies_iff in Ht.
      rewrite onEvent_qualifying in Hon by exact Ht. injection Hon as <- <-.
      exists (length (timers st)), (now + 100 * Millisecond).
      apply in_or_app. right. now left.
  - intros Hne. apply Hno. intros [He _]. auto.
  - intros Hz. apply Hno. intros [_ Hinc]. now apply includes_none in Hz.
  - intros Hin. apply Hno. intros [_ Hinc]. unfold includes in Hinc.
    destruct Hin as [E|[E|[E|[]]]]; rewrite <- E in Hinc;
      destruct Hinc; discriminate.
Qed.

Lemma stopTimer_lookup (id : nat) (ts : list Timer) (i : nat) (tm : Timer) :
  stopTimer id ts !! i = Some tm -> Status tm = Pending ->
  i <> id /\ ts !! i = Some tm.
Proof.
  unfold stopTimer.
  destruct (ts !! id) as [[w status]|] eqn:Hid.
  - destruct (decide (i = id)) as [->|Hne].
    + destruct status; intros Hi Hp.
      * rewrite list_lookup_insert_eq in Hi by (eapply lookup_lt_Some; eauto).
        injection Hi as <-. discriminate.
      * rewrite Hid in Hi. injection Hi as <-. discriminate.
      * rewrite Hid in Hi. injection Hi as <-. discriminate.
    + destruct status; intros Hi Hp; split; auto.
      rewrite list_lookup_insert_ne in Hi by auto. exact Hi.
  - intros Hi Hp. split; [|exact Hi]. intros ->. rewrite Hid in Hi. discriminate.
Qed.

Lemma debounced_initial last : debounced last initialState.
Proof. intros id tm H. cbn [initialState timers] in H. now rewrite lookup_nil in H. Qed.

(** A qualifying event leaves exactly the new timer waiting. *)
Lemma onEvent_debounced absPath last st now event :
  debounced last st ->
  qualifies absPath event = true ->
  forall (id : nat) (tm : Timer),
    timers (fst (onEvent absPath st now event)) !! id = Some tm ->
    Status tm = Pending ->
    id = length (timers st) /\ When tm = now + 100 * Millisecond /\
    debounce (fst (onEvent absPath st now event)) = Some id.
Proof.
  intros Hinv Hq id tm. rewrite onEvent_qualifying by exact Hq. cbn [fst timers debounce].
  set (ts := match debounce st with
             | Some id0 => stopTimer id0 (timers st)
             | None => timers st
             end).
  assert (Hlen : length ts = length (timers st)).
  { unfold ts. destruct (debounce st); [apply stopTimer_length|reflexivity]. }
  intros Hlk Hp.
  destruct (decide (id < length ts)%nat) as [Hlt|Hge].
  - exfalso. rewrite lookup_app_l in Hlk by exact Hlt. unfold ts in Hlk.
    destruct (debounce st) as [id0|] eqn:Hd.
    + apply stopTimer_lookup in Hlk as [Hne Hlk]; [|exact Hp].
      destruct (Hinv id tm Hlk Hp) as [Hd' _]. congruence.
    + destruct (Hinv id tm Hlk Hp) as [Hd' _]. congruence.
  - rewrite lookup_app_r in Hlk by lia.
    destruct (id - length ts)%nat as [|k] eqn:Hk; [|cbn in Hlk; now rewrite ?lookup_nil in Hlk].
    injection Hlk as <-. cbn [When].
    assert (id = length ts) by lia. subst id. rewrite Hlen. auto.
Qed.

Section Debounce.
Variable world : Z -> Env.
Variables baseURL compiler filePath args : string.
Variable showSource : bool.
Variable projectRoot : string.

Let loop' := loop world baseURL compiler filePath args showSource projectRoot.
Let onExpire' := onExpire world baseURL compiler filePath args showSource projectRoot.

Lemma onExpire_debounced last st now id :
  debounced last st -> debounced last (fst (onExpire' st now id)).
Proof.
  intros Hinv. unfold onExpire', onExpire.
  destruct (timers st !! id) as [[w status]|] eqn:Hid; [|exact Hinv].
  destruct status; try exact Hinv.
  destruct (w <=? now); [|exact Hinv]. cbn [fst].
  intros i tm Hi Hp. cbn [timers debounce] in *.
  destruct (decide (i = id)) as [->|Hne].
  - rewrite list_lookup_insert_eq in Hi by (eapply lookup_lt_Some; eauto).
    injection Hi as <-. discriminate.
  - rewrite list_lookup_insert_ne in Hi by auto. exact (Hinv i tm Hi Hp).
Qed.

(** A timer's function runs only for a waiting timer that is due. *)
Lemma onExpire_runs st now id :
  snd (onExpire' st now id) <> [] ->
  exists w, timers st !! id = Some {| When := w; Status := Pending |} /\ w <= now.
Proof.
  unfold onExpire', onExpire.
  destruct (timers st !! id) as [[w status]|]; [|now intros []].
  destruct status; try now intros [].
  destruct (Z.leb_spec w now); [|now intros []]. eauto.
Qed.

Lemma loop_debounced absPath schedule : forall last st acts st',
    debounced last st ->
    loop' absPath st schedule = (acts, Blocked st') ->
    debounced (lastQualifying absPath last schedule) st'.
Proof.
  induction schedule as [|[now inp] rest IH]; intros last st acts st' Hinv.
  - intros [= _ <-]. exact Hinv.
  - unfold loop' in *. cbn [loop lastQualifying]. destruct inp as [event| |err| |id].
    + destruct (onEvent absPath st now event) as [st1 acts1] eqn:Hon.
      destruct (loop _ _ _ _ _ _ _ _ st1 rest) as [acts' r] eqn:Hl.
      intros [= _ ->]. eapply IH; [|exact Hl].
      destruct (qualifies absPath event) eqn:Hq.
      * intros id tm Hlk Hp.
        pose proof (onEvent_debounced absPath last st now event Hinv Hq id tm) as H.
        rewrite Hon in H. cbn [fst] in H. destruct (H Hlk Hp) as (_ & Hw & Hd).
        split; [exact Hd|]. eauto.
      * rewrite onEvent_not_qualifying in Hon by exact Hq.
        injection Hon as <- <-. exact Hinv.
    + discriminate.
    + destruct (loop _ _ _ _ _ _ _ _ st rest) as [acts' r] eqn:Hl.
      intros [= _ ->]. eapply IH; [exact Hinv|exact Hl].
    + discriminate.
    + pose proof (onExpire_debounced last st now id Hinv) as Hinv'.
      unfold onExpire' in Hinv'.
      destruct (onExpire _ _ _ _ _ _ _ st now id) as [st1 acts1].
      destruct (loop _ _ _ _ _ _ _ _ st1 rest) as [acts' r] eqn:Hl.
      intros [= _ ->]. eapply IH; [exact Hinv'|exact Hl].
Qed.

End Debounce.

(** C7.  Events are debounced.  Wherever the loop stands after the inputs
    of a schedule: every timer that still waits is the one [debounce] points
    to, so at most one recompile is pending, and it is due 100 ms after the
    last qualifying event; the next qualifying event stops that timer before
    it starts the new one, which is then the only timer waiting; and the
    function of a timer runs only when the timer waits and is due, that is
    no sooner than 100 ms after the last qualifying event. *)
Theorem debounce_single_pending
        world baseURL compiler filePath args showSource projectRoot
        absPath schedule acts st :
  loop world baseURL compiler filePath args showSource projectRoot
       absPath initialState schedule = (acts, Blocked st) ->
  let last := lastQualifying absPath None schedule in
  (forall (id : nat) (tm : Timer),
      timers st !! id = Some tm -> Status tm = Pending ->
      debounce st = Some id /\
      exists t, last = Some t /\ When tm = t + 100 * Millisecond) /\
  (forall (i j : nat) (ti tj : Timer),
      timers st !! i = Some ti -> timers st !! j = Some tj ->
      Status ti = Pending -> Status tj = Pending -> i = j) /\
  (forall now event,
      qualifies absPath event = true ->
      let '(st', acts') := onEvent absPath st now event in
      acts' = (match debounce st with Some id => [Stop id] | None => [] end
               ++ [AfterFunc (length (timers st)) (now + 100 * Millisecond)])%list /\
      forall (id : nat) (tm : Timer),
        timers st' !! id = Some tm -> Status tm = Pending ->
        id = length (timers st) /\ When tm = now + 100 * Millisecond) /\
  (forall now id,
      snd (onExpire world baseURL compiler filePath args showSource projectRoot
                    st now id) <> [] ->
      exists t, last = Some t /\ t + 100 * Millisecond <= now).
Proof.
  intros Hloop. cbv zeta.
  pose proof (loop_debounced world baseURL compiler filePath args showSource projectRoot
                absPath schedule None initialState acts st
                (debounced_initial None) Hloop) as Hinv.
  split; [exact Hinv|]. split; [|split].
  - intros i j ti tj Hi Hj Hpi Hpj.
    destruct (Hinv i ti Hi Hpi) as [Hdi _], (Hinv j tj Hj Hpj) as [Hdj _]. congruence.
  - intros now event Hq.
    pose proof (onEvent_debounced absPath _ st now event Hinv Hq) as Hnew.
    rewrite onEvent_qualifying in * by exact Hq. cbn [fst] in Hnew.
    split; [reflexivity|]. intros id tm Hlk Hp.
    destruct (Hnew id tm Hlk Hp) as (? & ? & _). auto.
  - intros now id Hrun. apply onExpire_runs in Hrun as (w & Hlk & Hle).
    destruct (Hinv id _ Hlk eq_refl) as (_ & t & Hlast & Hw). cbn [When] in Hw.
    exists t. split; [exact Hlast|lia].
Qed.

(** After two writes of the watched file the first timer is stopped and
    the second waits, due 100 ms after the second write. *)
Lemma debounce_single_pending_witness :
  loop (fun _ => sampleEnv) "https://godbolt.org" "ztrunk" "/proj/src/main.zig" "" false ""
       "/proj/src/main.zig" initialState sampleSchedule
  = ([AfterFunc 0 100000005; Stop 0; AfterFunc 1 100000007],
     Blocked {| timers := [{| When := 100000005; Status := Stopped |};
                           {| When := 100000007; Status := Pending |}];
                debounce := Some 1%nat |}) /\
  (Some 1%nat = Some 1%nat /\
   exists t, lastQualifying "/proj/src/main.zig" None sampleSchedule = Some t /\
             100000007 = t + 100 * Millisecond).
Proof.
  split; [vm_compute; reflexivity|].
  apply (proj1 (debounce_single_pending
                  (fun _ => sampleEnv) "https://godbolt.org" "ztrunk"
                  "/proj/src/main.zig" "" false "" "/proj/src/main.zig" sampleSchedule
                  [AfterFunc 0 100000005; Stop 0; AfterFunc 1 100000007]
                  {| timers := [{| When := 100000005; Status := Stopped |};
                                {| When := 100000007; Status := Pending |}];
                     debounce := Some 1%nat |}
                  ltac:(vm_compute; reflexivity))
               1%nat {| When := 100000007; Status := Pending |});
    reflexivity.
Defined.

Lemma countIf_insert {A} (p : A -> bool) (l : list A) (i : nat) (x y : A) :
  l !! i = Some y ->
  (countIf p (<[i := x]> l) + (if p y then 1 else 0)
   = countIf p l + (if p x then 1 else 0))%nat.
Proof.
  revert i. induction l as [|a l IH]; intros [|i] H; try discriminate.
  - injection H as ->. cbn. lia.
  - cbn in H. cbn [countIf]. change (<[S i := x]> (a :: l)) with (a :: <[i := x]> l).
    cbn [countIf]. specialize (IH i H). lia.
Qed.

Lemma stopTimer_pendingCount (id : nat) (ts : list Timer) :
  (countIf isPending (stopTimer id ts) <= countIf isPending ts)%nat.
Proof.
  unfold stopTimer. destruct (ts !! id) as [[w status]|] eqn:Hid; [|lia].
  destruct status; try lia.
  pose proof (countIf_insert isPending ts id {| When := w; Status := Stopped |} _ Hid) as H.
  cbn in H. lia.
Qed.

Section Counting.
Variable world : Z -> Env.
Variables baseURL compiler filePath args : string.
Variable showSource : bool.
Variable projectRoot : string.

Let loop' := loop world baseURL compiler filePath args showSource projectRoot.
Let onExpire' := onExpire world baseURL compiler filePath args showSource projectRoot.

Lemma onEvent_counts absPath st now event :
  let '(st', acts) := onEvent absPath st now event in
  compileCount acts = 0%nat /\
  (pendingCount st' <= pendingCount st + afterFuncCount acts)%nat.
Proof.
  destruct (qualifies absPath event) eqn:Hq.
  - rewrite onEvent_qualifying by exact Hq. unfold pendingCount. cbn [timers].
    rewrite afterFuncCount_app, compileCount_app, countIf_app. cbn.
    destruct (debounce st) as [id|]; cbn.
    + pose proof (stopTimer_pendingCount id (timers st)). split; lia.
    + split; lia.
  - rewrite onEvent_not_qualifying by exact Hq. cbn. split; lia.
Qed.

Lemma onExpire_counts st now id :
  let '(st', acts) := onExpire' st now id in
  afterFuncCount acts = 0%nat /\
  (compileCount acts + pendingCount st' = pendingCount st)%nat.
Proof.
  unfold onExpire', onExpire.
  destruct (timers st !! id) as [[w status]|] eqn:Hid; [|cbn; split; lia].
  destruct status; try (cbn; split; lia).
  destruct (w <=? now); [|cbn; split; lia].
  unfold recompile, pendingCount. cbn [timers].
  pose proof (compileAndReport_counts world baseURL compiler filePath args showSource
                projectRoot now reportStdout) as [Hc Ha]. cbv zeta in Hc, Ha.
  pose proof (countIf_insert isPending (timers st) id {| When := w; Status := Fired |}
                _ Hid) as H. cbn in H.
  split.
  - exact Ha.
  - change (compileCount (Out Clear :: Out ?x :: ?l)) with (compileCount l).
    rewrite Hc. lia.
Qed.

(** The loop compiles at most once per timer: those that wait at its
    start and those it starts. *)
Lemma loop_compileCount absPath schedule : forall st,
    let acts := fst (loop' absPath st schedule) in
    (compileCount acts <= pendingCount st + afterFuncCount acts)%nat.
Proof.
  induction schedule as [|[now inp] rest IH]; intros st; cbv zeta; [cbn; lia|].
  unfold loop' in *. cbn [loop]. destruct inp as [event| |err| |id].
  - pose proof (onEvent_counts absPath st now event) as H.
    destruct (onEvent absPath st now event) as [st' acts].
    specialize (IH st'). cbv zeta in IH.
    destruct (loop _ _ _ _ _ _ _ _ st' rest) as [acts' r]. cbn [fst] in *.
    rewrite compileCount_app, afterFuncCount_app. lia.
  - cbn. lia.
  - specialize (IH st). cbv zeta in IH.
    destruct (loop _ _ _ _ _ _ _ _ st rest) as [acts' r]. cbn [fst] in *.
    change (compileCount (Out ?x :: acts')) with (compileCount acts').
    change (afterFuncCount (Out ?x :: acts')) with (afterFuncCount acts'). exact IH.
  - cbn. lia.
  - pose proof (onExpire_counts st now id) as H. unfold onExpire' in H.
    destruct (onExpire _ _ _ _ _ _ _ st now id) as [st' acts].
    specialize (IH st'). cbv zeta in IH.
    destruct (loop _ _ _ _ _ _ _ _ st' rest) as [acts' r]. cbn [fst] in *.
    rewrite compileCount_app, afterFuncCount_app. lia.
Qed.

End Counting.

End WatchFacts.

(** ** Properties of [main] *)
Module MainFacts.
Import GoPath Walk Cet Spec CompileFacts WatchFacts.

(** The loop ends only by a closed channel, and then with nil. *)
Lemma loop_result world baseURL compiler filePath args showSource projectRoot
      absPath schedule : forall st,
    snd (loop world baseURL compiler filePath args showSource projectRoot
              absPath st schedule) = Returned None \/
    exists st', snd (loop world baseURL compiler filePath args showSource projectRoot
                          absPath st schedule) = Blocked st'.
Proof.
  induction schedule as [|[now inp] rest IH]; intros st; [right; eexists; reflexivity|].
  cbn [loop]. destruct inp as [event| |err| |id].
  - destruct (onEvent absPath st now event) as [st1 acts1].
    specialize (IH st1). destruct (loop _ _ _ _ _ _ _ _ st1 rest). exact IH.
  - now left.
  - specialize (IH st). destruct (loop _ _ _ _ _ _ _ _ st rest). exact IH.
  - now left.
  - destruct (onExpire _ _ _ _ _ _ _ st now id) as [st1 acts1].
    specialize (IH st1). destruct (loop _ _ _ _ _ _ _ _ st1 rest). exact IH.
Qed.

(** What [main] does once the watcher is set up. *)
Lemma main_watching world start flags filePath others schedule absPath :
  StatIsNotExist (world start) filePath = false ->
  once flags = false ->
  watcherReady (world start) filePath absPath ->
  exists banner rest,
    fst (main world start flags (filePath :: others) schedule)
    = (WatcherNew :: banner
         ++ Compile (fst (compile (world start) (server flags) (compiler_ flags) filePath
                                  (args_ flags) (showSource_ flags) (projectRoot_ flags)))
                    (snd (compile (world start) (server flags) (compiler_ flags) filePath
                                  (args_ flags) (showSource_ flags) (projectRoot_ flags)))
         :: rest)%list /\
    compileCount banner = 0%nat /\
    (compileCount rest <= afterFuncCount rest)%nat /\
    afterFuncCount rest = countIf (isQualifying absPath) (handled schedule).
Proof.
  intros Hstat Honce (Hnew & Habs & Hadd).
  unfold main. rewrite Hstat, Honce. unfold watch. rewrite Hnew, Habs, Hadd.
  pose proof (loop_compileCount world (server flags) (compiler_ flags) filePath
                (args_ flags) (showSource_ flags) (projectRoot_ flags)
                absPath schedule initialState) as Hcount.
  pose proof (loop_afterFuncCount world (server flags) (compiler_ flags) filePath
                (args_ flags) (showSource_ flags) (projectRoot_ flags)
                absPath schedule initialState) as Hafter.
  pose proof (loop_result world (server flags) (compiler_ flags) filePath
                (args_ flags) (showSource_ flags) (projectRoot_ flags)
                absPath schedule initialState) as Hres.
  cbv zeta in Hcount.
  destruct (loop _ _ _ _ _ _ _ _ initialState schedule) as [acts r]. cbn [fst snd] in *.
  unfold compileAndReport.
  destruct (compile (world start) _ _ _ _ _ _) as [t c]. cbn [fst snd].
  set (report := match c with
                 | Err err => [Out (reportStdout (Error err))]
                 | Ok _ => []
                 end).
  assert (Hrep : compileCount report = 0%nat /\ afterFuncCount report = 0%nat).
  { unfold report. destruct c; split; reflexivity. }
  destruct Hrep as [Hrc Hra].
  change (pendingCount initialState) with 0%nat in Hcount.
  destruct Hres as [->|[st' ->]]; cbn [fst].
  - eexists [_; _; _; _], (report ++ acts ++ [WatcherClose])%list.
    split; [cbn; rewrite <- !app_assoc; reflexivity|].
    split; [reflexivity|].
    rewrite !compileCount_app, !afterFuncCount_app, Hrc, Hra, Hafter in *. cbn. lia.
  - eexists [_; _; _; _], (report ++ acts)%list.
    split; [reflexivity|]. split; [reflexivity|].
    rewrite !compileCount_app, !afterFuncCount_app, Hrc, Hra, Hafter in *. cbn. lia.
Qed.

(** C8 as it is written fails when the watcher cannot be made: [watch]
    returns the error of [fsnotify.NewWatcher] before its initial compile,
    and the run ends without any compile. *)
Lemma triggers_counterexample :
  StatIsNotExist noWatcherEnv "/proj/src/main.zig" = false /\
  main (fun _ => noWatcherEnv) 0 defaultFlags ["/proj/src/main.zig"] sampleSchedule
  = ([Out (PrintErr ("Error: failed to create watcher: too many open files" +:+ LF))],
     Exited 1) /\
  ~ triggersAsStated (fun _ => noWatcherEnv) 0 defaultFlags
                     ["/proj/src/main.zig"] sampleSchedule.
Proof.
  split; [reflexivity|]. split; [vm_compute; reflexivity|].
  intros [_ H]. destruct (H eq_refl) as [Hone _].
  vm_compute in Hone. lia.
Qed.

(** C8, amended.  After [main] has found its file argument and [os.Stat]
    has not reported the file missing: with [-once] it calls [compile] once,
    makes no watcher and exits; without [-once] it runs [watch], which, when
    the watcher is set up, compiles once at the start and after that only
    when a timer fires, and timers are started by qualifying file events
    only, so that the later compiles are at most as many as those events;
    when the watcher cannot be set up, [watch] returns the error and nothing
    is compiled. *)
Theorem main_compile_triggers world start flags filePath others schedule :
  StatIsNotExist (world start) filePath = false ->
  let env := world start in
  let run := main world start flags (filePath :: others) schedule in
  let call := compile env (server flags) (compiler_ flags) filePath
                      (args_ flags) (showSource_ flags) (projectRoot_ flags) in
  (once flags = true ->
   triggersAsStated world start flags (filePath :: others) schedule /\
   fst run = Compile (fst call) (snd call)
             :: match snd call with
                | Err err => [Out (reportStderr (Error err))]
                | Ok _ => []
                end /\
   snd run = Exited (match snd call with Err _ => 1 | Ok _ => 0 end)) /\
  (once flags = false ->
   (forall absPath,
       watcherReady env filePath absPath ->
       triggersAsStated world start flags (filePath :: others) schedule /\
       exists banner rest,
         fst run = (WatcherNew :: banner ++ Compile (fst call) (snd call) :: rest)%list /\
         compileCount banner = 0%nat /\
         (compileCount rest <= afterFuncCount rest)%nat /\
         afterFuncCount rest = countIf (isQualifying absPath) (handled schedule)) /\
   ((forall absPath, ~ watcherReady env filePath absPath) ->
    compileCount (fst run) = 0%nat /\ snd run = Exited 1)).
Proof.
  intros Hstat. cbv zeta. split.
  - intros Honce.
    assert (Hrun : main world start flags (filePath :: others) schedule
                   = (let '(t, r) := compile (world start) (server flags) (compiler_ flags)
                                             filePath (args_ flags) (showSource_ flags)
                                             (projectRoot_ flags) in
                      match r with
                      | Err err => ([Compile t r; Out (reportStderr (Error err))], Exited 1)
                      | Ok _ => ([Compile t r], Exited 0)
                      end)).
    { unfold main. now rewrite Hstat, Honce. }
    rewrite Hrun. unfold triggersAsStated. rewrite Hrun.
    destruct (compile (world start) _ _ _ _ _ _) as [t [[]|err]]; cbn [fst snd].
    + split; [|split; reflexivity]. split; [|intros H; congruence].
      intros _. split; [reflexivity|]. intros [H|[]]. discriminate.
    + split; [|split; reflexivity]. split; [|intros H; congruence].
      intros _. split; [reflexivity|]. intros [H|[H|[]]]; discriminate.
  - intros Honce. split.
    + intros absPath Hready.
      destruct (main_watching world start flags filePath others schedule absPath
                  Hstat Honce Hready) as (banner & rest & Hacts & Hb & Hc & Ha).
      split; [|eauto 8].
      unfold triggersAsStated. rewrite Hacts. split; [intros H; congruence|].
      intros _.
      assert (Hcount : compileCount
                         (WatcherNew :: banner ++ Compile
                            (fst (compile (world start) (server flags) (compiler_ flags)
                                          filePath (args_ flags) (showSource_ flags)
                                          (projectRoot_ flags)))
                            (snd (compile (world start) (server flags) (compiler_ flags)
                                          filePath (args_ flags) (showSource_ flags)
                                          (projectRoot_ flags))) :: rest)
                       = S (compileCount rest)).
      { change (compileCount (WatcherNew :: ?l)) with (compileCount l).
        rewrite compileCount_app, Hb. reflexivity. }
      rewrite Hcount. split; [lia|].
      intros absPath' Habs'. cbn [hd] in Habs'.
      destruct Hready as (_ & Habs & _). rewrite Habs in Habs'. injection Habs' as <-.
      lia.
    + intros Hnot. unfold main. rewrite Hstat, Honce. unfold watch.
      destruct (NewWatcher (world start)) as [e|] eqn:Hnew; [split; reflexivity|].
      destruct (Abs (world start) filePath) as [absPath|e] eqn:Habs; [|split; reflexivity].
      destruct (WatcherAdd (world start) (Dir absPath)) as [e|] eqn:Hadd;
        [split; reflexivity|].
      exfalso. apply (Hnot absPath). repeat split; assumption.
Qed.

(** In the sample world both branches apply: the watcher is ready, and the
    run of the sample schedule starts with the watcher, the banner and the
    initial compile. *)
Lemma main_compile_triggers_witness :
  StatIsNotExist sampleEnv "/proj/src/main.zig" = false /\
  watcherReady sampleEnv "/proj/src/main.zig" "/proj/src/main.zig" /\
  triggersAsStated (fun _ => sampleEnv) 0 defaultFlags
                   ["/proj/src/main.zig"] sampleSchedule.
Proof.
  split; [reflexivity|].
  assert (Hready : watcherReady sampleEnv "/proj/src/main.zig" "/proj/src/main.zig").
  { repeat split; reflexivity. }
  split; [exact Hready|].
  exact (proj1 (proj1 (proj2 (main_compile_triggers
                                (fun _ => sampleEnv) 0 defaultFlags
                                "/proj/src/main.zig" [] sampleSchedule eq_refl)
                             eq_refl)
                      "/proj/src/main.zig" Hready)).
Defined.

End MainFacts.

(** ** More of [collectProjectFiles]: edges, completeness, errors *)
Module CollectMore.
Import GoPath Walk Cet Spec WalkFacts CollectFacts SpecMore.

Lemma Rel_error_plain basepath targpath e :
  Rel basepath targpath = Err e -> plainError e.
Proof.
  unfold Rel.
  destruct (String.eqb (Clean targpath) (Clean basepath)); [discriminate|].
  destruct (negb _); [intros [= <-]; split; reflexivity|].
  destruct (relLoop _ _ _ _ _ _ _ _ _) as [[[b0 bi] t0] ti].
  destruct (String.eqb _ ".."); [intros [= <-]; split; reflexivity|].
  destruct (negb _); discriminate.
Qed.

Section Complete.
Variable env : Env.
Variables mainFile relativeToDir : string.
Hypothesis Hreads : plainReads env.

Let fn := collectFn env (Ext mainFile) mainFile relativeToDir.

Lemma collectFn_file_error path name t files files' e :
  fn path (Visit {| Name := name; Type_ := ModeType t |}) files = (files', Some e) ->
  plainError e.
Proof.
  unfold fn, collectFn. cbn [IsDir Type_ Name].
  destruct (_ || _ || _); [discriminate|].
  destruct (ReadFile env path) as [content|e1] eqn:Hrd.
  - destruct (Rel relativeToDir path) as [relPath|e2] eqn:Hrel; [discriminate|].
    intros [= _ <-]. eapply Rel_error_plain; eauto.
  - intros [= _ <-]. eapply Hreads; eauto.
Qed.

Lemma plainError_skipped (r : list FileEntry * option error) files e :
  skipped r = (files, Some e) -> isSkipDir e = false.
Proof.
  destruct r as [s [e0|]]; [|discriminate]. cbn.
  destruct (isSkipDir e0) eqn:H; [discriminate|]. now intros [= _ <-].
Qed.

Lemma walkEntries_extends dirs : forall p files files' err,
    walkEntries fn p dirs files = (files', err) ->
    exists new, files' = (files ++ new)%list.
Proof.
  induction dirs as [|[name1 n1] dirs IH]; intros p files files' err; cbn [walkEntries].
  - intros [= <- _]. exists []. now rewrite app_nil_r.
  - destruct (walkDir fn (Join [p; name1]) name1 n1 files) as [s' o] eqn:Hw.
    apply walkDir_origin in Hw as (new1 & -> & _).
    destruct o as [e|].
    + intros H. exists new1. destruct (isSkipDir e); now injection H as <- _.
    + intros H. apply IH in H as (new2 & ->). exists (new1 ++ new2)%list.
      now rewrite app_assoc.
Qed.

(** An error that comes out of the walk of a tree is no sentinel. *)
Lemma walkDir_error_plain n : forall p nm files files' e,
    plainTree n = true ->
    walkDir fn p nm n files = (files', Some e) -> plainError e.
Proof.
  induction n as [t|entries readErr IH] using Node_tree_ind;
    intros p nm files files' e Hplain.
  - apply collectFn_file_error.
  - rewrite walkDir_Directory. cbv zeta. fold fn.
    unfold fn at 1. rewrite collectFn_dir. fold fn.
    cbn [plainTree] in Hplain. apply andb_true_iff in Hplain as [Hre Hsub].
    destruct (skipDir nm); [discriminate|].
    assert (Hent : forall dirs, (forall x, In x dirs -> In x entries) ->
               forall s s', walkEntries fn p dirs s = (s', Some e) -> plainError e).
    { induction dirs as [|[name1 n1] dirs IHd]; intros Hin s s'; cbn [walkEntries];
        [discriminate|].
      destruct (walkDir fn (Join [p; name1]) name1 n1 s) as [s1 [e1|]] eqn:Hw.
      - destruct (isSkipDir e1) eqn:Hs; [discriminate|]. intros [= _ <-].
        rewrite List.Forall_forall in IH.
        eapply (IH (name1, n1)); [apply Hin; now left| |exact Hw].
        rewrite forallb_forall in Hsub. apply (Hsub (name1, n1)). apply Hin. now left.
      - apply IHd. intros x Hx. apply Hin. now right. }
    destruct readErr as [re|].
    + unfold fn at 1. rewrite collectFn_failed. cbn.
      destruct (isSkipDir re) eqn:Hs; [discriminate|]. intros [= _ <-].
      apply negb_true_iff, orb_false_iff in Hre. split; [exact Hs|apply Hre].
    + apply Hent. auto.
Qed.

(** A walk that ends without error has collected every eligible leaf. *)
Lemma walkDir_complete n : forall p nm files files',
    plainTree n = true ->
    walkDir fn p nm n files = (files', None) ->
    forall q qnm t anc,
      located p nm n q qnm (File t) anc ->
      eligible mainFile q qnm anc ->
      exists e, In e files' /\ madeFrom env relativeToDir q e.
Proof.
  induction n as [t0|entries readErr IH] using Node_tree_ind;
    intros p nm files files' Hplain Hw q qnm t anc Hloc (Hanc & Hext & Hne & Hb).
  - inversion Hloc; subst. cbn in Hw. unfold fn, collectFn in Hw. cbn [IsDir Type_ Name] in Hw.
    rewrite Hext, String.eqb_refl in Hw.
    destruct (String.eqb_spec q mainFile) as [|_]; [contradiction|].
    destruct (String.eqb_spec qnm "build.zig") as [|_]; [contradiction|].
    cbn in Hw.
    destruct (ReadFile env q) as [content|e1] eqn:Hrd; [|discriminate].
    destruct (Rel relativeToDir q) as [relPath|e2] eqn:Hrel; [|discriminate].
    injection Hw as <-. eexists. split; [apply in_or_app; right; now left|].
    split; assumption.
  - inversion Hloc as [|? ? ? ? name1 n1 ? ? ? anc' Hin Hbelow]; subst.
    inversion Hanc as [|? ? Hskip Hanc']; subst.
    rewrite walkDir_Directory in Hw. cbv zeta in Hw. fold fn in Hw.
    unfold fn at 1 in Hw. rewrite collectFn_dir, Hskip in Hw. fold fn in Hw.
    cbn [plainTree] in Hplain. apply andb_true_iff in Hplain as [Hre Hsub].
    rewrite forallb_forall in Hsub. rewrite List.Forall_forall in IH.
    destruct readErr as [re|].
    { unfold fn at 1 in Hw. rewrite collectFn_failed in Hw. cbn in Hw.
      apply negb_true_iff, orb_false_iff in Hre as [Hs _]. rewrite Hs in Hw.
      discriminate. }
    assert (Hent : forall dirs, (forall x, In x dirs -> In x entries) ->
               In (name1, n1) dirs ->
               forall s s', walkEntries fn p dirs s = (s', None) ->
                            exists e, In e s' /\ madeFrom env relativeToDir q e).
    { induction dirs as [|[name2 n2] dirs IHd]; intros Hsubl Hin1 s s'; [destruct Hin1|].
      cbn [walkEntries].
      destruct (walkDir fn (Join [p; name2]) name2 n2 s) as [s1 [e1|]] eqn:Hw2.
      - intros H. exfalso.
        assert (He1 : plainError e1).
        { eapply (walkDir_error_plain n2); [|exact Hw2].
          apply (Hsub (name2, n2)). apply Hsubl. now left. }
        destruct He1 as [He1 _]. rewrite He1 in H. discriminate.
      - intros Hrest. destruct Hin1 as [Heq|Hin1].
        + injection Heq as -> ->.
          destruct (IH (name1, n1) Hin (Join [p; name1]) name1 s s1
                       (Hsub _ Hin) Hw2 q qnm t anc' Hbelow)
            as (e & He & Hmade); [repeat split; assumption|].
          apply walkEntries_extends in Hrest as (new & ->).
          exists e. split; [apply in_or_app; now left|exact Hmade].
        + eapply IHd; [|exact Hin1|exact Hrest]. intros x Hx. apply Hsubl. now right. }
    eapply Hent; eauto.
Qed.

(** Where an error of the walk comes from. *)
Lemma errorSource_below p nm entries readErr name1 n1 e :
  In (name1, n1) entries ->
  errorSource env relativeToDir (Join [p; name1]) name1 n1 e ->
  errorSource env relativeToDir p nm (Directory entries readErr) e.
Proof.
  intros Hin (q & qnm & node & anc & Hloc & H).
  exists q, qnm, node, (nm :: anc). split; [econstructor; eauto|exact H].
Qed.

End Complete.

Section Source.
Variable env : Env.
Variables mainFile relativeToDir : string.

Let fn := collectFn env (Ext mainFile) mainFile relativeToDir.

Lemma walkDir_error_source n : forall p nm files files' e,
    walkDir fn p nm n files = (files', Some e) ->
    errorSource env relativeToDir p nm n e.
Proof.
  induction n as [t|entries readErr IH] using Node_tree_ind; intros p nm files files' e.
  - cbn. unfold fn, collectFn. cbn [IsDir Type_ Name].
    destruct (_ || _ || _); [discriminate|].
    destruct (ReadFile env p) as [content|e1] eqn:Hrd.
    + destruct (Rel relativeToDir p) as [relPath|e2] eqn:Hrel; [discriminate|].
      intros [= _ <-]. exists p, nm, (File t), []. split; [constructor|]. left. eauto.
    + intros [= _ <-]. exists p, nm, (File t), []. split; [constructor|]. left. eauto.
  - rewrite walkDir_Directory. cbv zeta. fold fn.
    unfold fn at 1. rewrite collectFn_dir. fold fn.
    destruct (skipDir nm); [discriminate|].
    assert (Hent : forall dirs, (forall x, In x dirs -> In x entries) ->
               forall s s', walkEntries fn p dirs s = (s', Some e) ->
                            errorSource env relativeToDir p nm
                                        (Directory entries readErr) e).
    { induction dirs as [|[name1 n1] dirs IHd]; intros Hin s s'; cbn [walkEntries];
        [discriminate|].
      destruct (walkDir fn (Join [p; name1]) name1 n1 s) as [s1 [e1|]] eqn:Hw.
      - destruct (isSkipDir e1); [discriminate|]. intros [= _ <-].
        rewrite List.Forall_forall in IH.
        eapply errorSource_below; [apply Hin; now left|].
        eapply (IH (name1, n1)); [apply Hin; now left|exact Hw].
      - apply IHd. intros x Hx. apply Hin. now right. }
    destruct readErr as [re|].
    + unfold fn at 1. rewrite collectFn_failed. cbn.
      destruct (isSkipDir re); [discriminate|]. intros [= _ <-].
      exists p, nm, (Directory entries (Some re)), []. split; [constructor|]. right. eauto.
    + apply Hent. auto.
Qed.

End Source.

(** X1.  The edges of the search directory: when [os.Lstat] fails on it the
    result is no file and that error; when it is a directory with one of
    the skipped names, or an empty directory, the result is no file and no
    error; when it is not a directory at all, at most one entry comes
    back. *)
Theorem collect_root_edges env searchDir mainFile relativeToDir :
  let run := collectProjectFiles env searchDir mainFile relativeToDir in
  (forall e, Lstat env searchDir = Err e -> plainError e -> run = ([], Some e)) /\
  (forall entries readErr,
      Lstat env searchDir = Ok (Directory entries readErr) ->
      skipDir (basename searchDir) = true -> run = ([], None)) /\
  (Lstat env searchDir = Ok (Directory [] None) -> run = ([], None)) /\
  (forall t, Lstat env searchDir = Ok (File t) -> (length (fst run) <= 1)%nat).
Proof.
  cbv zeta. unfold collectProjectFiles, WalkDir. split; [|split; [|split]].
  - intros e -> [Hd Ha]. cbn. now rewrite Hd, Ha.
  - intros entries readErr -> Hskip. rewrite walkDir_Directory. cbv zeta.
    rewrite collectFn_dir, Hskip. reflexivity.
  - intros ->. rewrite walkDir_Directory. cbv zeta. rewrite collectFn_dir.
    destruct (skipDir (basename searchDir)); reflexivity.
  - intros t ->.
    destruct (walkDir _ searchDir (basename searchDir) (File t) []) as [files err] eqn:Hw.
    apply collectFn_file in Hw as [->|(e & -> & _)];
      destruct err as [e0|]; cbn; lia.
Qed.

Lemma collect_root_edges_witness :
  collectProjectFiles sampleEnv "/nowhere" "/proj/src/main.zig" "/proj/src"
  = ([], Some (ErrNew "lstat /nowhere: no such file or directory")).
Proof.
  apply (proj1 (collect_root_edges sampleEnv "/nowhere" "/proj/src/main.zig" "/proj/src")).
  - reflexivity.
  - split; reflexivity.
Defined.

(** X2.  Completeness: when the walk returns no error (and no error of the
    file system is one of the walk's own sentinels), every leaf outside the
    skipped directories that has the main file's extension and is neither
    the main file nor a [build.zig] has its entry in the list. *)
Theorem collect_complete env searchDir mainFile relativeToDir root q qnm t anc :
  plainReads env ->
  Lstat env searchDir = Ok root ->
  plainTree root = true ->
  snd (collectProjectFiles env searchDir mainFile relativeToDir) = None ->
  located searchDir (basename searchDir) root q qnm (File t) anc ->
  eligible mainFile q qnm anc ->
  exists e, In e (fst (collectProjectFiles env searchDir mainFile relativeToDir)) /\
            madeFrom env relativeToDir q e.
Proof.
  intros Hreads Hroot Hplain Hnone Hloc Hel.
  unfold collectProjectFiles, WalkDir in *. rewrite Hroot in *.
  destruct (walkDir _ searchDir (basename searchDir) root []) as [files [e|]] eqn:Hw.
  - exfalso. apply (walkDir_error_plain env mainFile relativeToDir Hreads root) in Hw
      as [Hd Ha]; [|exact Hplain].
    cbn in Hnone. rewrite Hd, Ha in Hnone. discriminate.
  - cbn [fst].
    eapply (walkDir_complete env mainFile relativeToDir Hreads root); eauto.
Qed.

Lemma collect_complete_witness :
  exists e,
    In e (fst (collectProjectFiles sampleEnv "/proj/src" "/proj/src/main.zig" "/proj/src")) /\
    madeFrom sampleEnv "/proj/src" "/proj/src/util/helper.zig" e.
Proof.
  apply (collect_complete sampleEnv "/proj/src" "/proj/src/main.zig" "/proj/src"
                          sourceTree "/proj/src/util/helper.zig" "helper.zig"
                          Regular ["src"; "util"]).
  - intros path e H. discriminate.
  - reflexivity.
  - reflexivity.
  - vm_compute. reflexivity.
  - change (basename "/proj/src") with "src".
    eapply located_below; [do 4 right; left; reflexivity|].
    change (Join ["/proj/src"; "util"]) with "/proj/src/util".
    eapply located_below; [left; reflexivity|].
    change (Join ["/proj/src/util"; "helper.zig"]) with "/proj/src/util/helper.zig".
    constructor.
  - split; [repeat constructor|].
    split; [reflexivity|]. split; intros H; discriminate.
Defined.

(** X3.  The walk invents no error: an error it returns is the error of
    [os.Lstat] on the search directory, of [os.ReadFile] or [filepath.Rel]
    on a leaf of the tree, or of [os.ReadDir] on one of its directories. *)
Theorem collect_error_source env searchDir mainFile relativeToDir e :
  snd (collectProjectFiles env searchDir mainFile relativeToDir) = Some e ->
  Lstat env searchDir = Err e \/
  exists root, Lstat env searchDir = Ok root /\
               errorSource env relativeToDir searchDir (basename searchDir) root e.
Proof.
  unfold collectProjectFiles, WalkDir.
  destruct (Lstat env searchDir) as [root|e0].
  - destruct (walkDir _ searchDir (basename searchDir) root []) as [files [e1|]] eqn:Hw;
      [|discriminate].
    cbn. destruct (isSkipDir e1 || isSkipAll e1); [discriminate|]. intros [= <-].
    right. exists root. split; [reflexivity|].
    eapply walkDir_error_source; eauto.
  - cbn. destruct (isSkipDir e0 || isSkipAll e0); [discriminate|]. intros [= <-]. now left.
Qed.

Lemma collect_error_source_witness :
  Lstat unreadableEnv "/proj/src"
  = Err (ErrNew "open /proj/src/util/helper.zig: permission denied") \/
  exists root,
    Lstat unreadableEnv "/proj/src" = Ok root /\
    errorSource unreadableEnv "/proj/src" "/proj/src" (basename "/proj/src") root
                (ErrNew "open /proj/src/util/helper.zig: permission denied").
Proof.
  apply (collect_error_source unreadableEnv "/proj/src" "/proj/src/main.zig" "/proj/src").
  vm_compute. reflexivity.
Defined.

End CollectMore.

(** ** The walk inside [compile] *)
Module Compose.
Import GoPath Walk Cet Spec WalkFacts CollectFacts CompileFacts SpecMore.

Section Appends.
Variable env : Env.
Variables ext mainFile relativeToDir : string.

Let fn := collectFn env ext mainFile relativeToDir.

Lemma collectFn_appends path a files :
  fn path a files = ((files ++ fst (fn path a []))%list, snd (fn path a [])).
Proof.
  unfold fn, collectFn. destruct a as [d|d err]; [|now rewrite app_nil_r].
  destruct (IsDir d).
  { destruct (skipDir (Name d)); now rewrite app_nil_r. }
  destruct (_ || _ || _); [now rewrite app_nil_r|].
  destruct (ReadFile env path) as [content|e]; [|now rewrite app_nil_r].
  destruct (Rel relativeToDir path) as [relPath|e]; [|now rewrite app_nil_r].
  reflexivity.
Qed.

Lemma walkDir_appends n : forall p nm files,
    walkDir fn p nm n files
    = ((files ++ fst (walkDir fn p nm n []))%list, snd (walkDir fn p nm n [])).
Proof.
  induction n as [t|entries readErr IH] using Node_tree_ind; intros p nm files.
  - exact (collectFn_appends p (Visit {| Name := nm; Type_ := ModeType t |}) files).
  - assert (Hent : forall s,
               walkEntries fn p entries s
               = ((s ++ fst (walkEntries fn p entries []))%list,
                  snd (walkEntries fn p entries []))).
    { induction IH as [|[name1 n1] dirs Hn1 _ IHd]; intros s.
      - cbn. now rewrite app_nil_r.
      - cbn [walkEntries]. cbn [snd] in Hn1.
        rewrite (Hn1 (Join [p; name1]) name1 s).
        destruct (walkDir fn (Join [p; name1]) name1 n1 []) as [s1 [e|]]; cbn [fst snd].
        + destruct (isSkipDir e); reflexivity.
        + rewrite (IHd (s ++ s1)%list), (IHd s1). cbn [fst snd].
          now rewrite app_assoc. }
    rewrite !walkDir_Directory. cbv zeta.
    rewrite (collectFn_appends p (Visit _) files).
    destruct (fn p (Visit _) []) as [s1 [e|]]; cbn [fst snd].
    { cbn. destruct (isSkipDir e); reflexivity. }
    destruct readErr as [re|].
    + rewrite (collectFn_appends p (Failed _ _) (files ++ s1)%list).
      rewrite (collectFn_appends p (Failed _ _) s1).
      destruct (fn p (Failed _ _) []) as [s2 [e|]]; cbn [fst snd].
      * cbn. destruct (isSkipDir e); cbn; now rewrite app_assoc.
      * rewrite (Hent ((files ++ s1) ++ s2)%list), (Hent (s1 ++ s2)%list). cbn [fst snd].
        now rewrite !app_assoc.
    + rewrite (Hent (files ++ s1)%list), (Hent s1). cbn [fst snd].
      now rewrite app_assoc.
Qed.

End Appends.

(** X4.  The walk only appends: what the walk of a subtree adds to the
    list, and the error it ends with, do not depend on the entries
    collected before it, which stay in front, in their order. *)
Theorem walk_only_appends env mainFile relativeToDir n p nm files :
  let fn := collectFn env (Ext mainFile) mainFile relativeToDir in
  walkDir fn p nm n files
  = ((files ++ fst (walkDir fn p nm n []))%list, snd (walkDir fn p nm n [])).
Proof. cbv zeta. apply walkDir_appends. Qed.

(** What [projectFilesOf] returns is the collection from the search
    directory, or nothing after an error. *)
Lemma projectFilesOf_files env filePath projectRoot files :
  snd (projectFilesOf env filePath projectRoot) = Ok files ->
  exists absPath searchDir,
    Abs env filePath = Ok absPath /\
    searchDirOf env absPath projectRoot = Ok searchDir /\
    files = match collectProjectFiles env searchDir absPath (Dir absPath) with
            | (_, Some _) => []
            | (projectFiles, None) => projectFiles
            end.
Proof.
  unfold projectFilesOf, searchDirOf, bind, try, ret, emit.
  destruct (Abs env filePath) as [absPath|e]; [|discriminate].
  destruct (negb (projectRoot =? "")%string).
  - destruct (Abs env projectRoot) as [searchDir|e]; [|discriminate].
    destruct (collectProjectFiles env searchDir absPath (Dir absPath))
      as [fs [err|]] eqn:Hc; intros [= <-]; exists absPath, searchDir;
      rewrite Hc; auto.
  - destruct (collectProjectFiles env (Dir absPath) absPath (Dir absPath))
      as [fs [err|]] eqn:Hc; intros [= <-]; exists absPath, (Dir absPath);
      rewrite Hc; auto.
Qed.

(** X5.  What [compile] puts into a request: the source is the content of
    the file, and every sibling entry is named relative to the directory of
    the file's absolute path, wherever [-root] made the search start, holds
    what reading its path gave, has the extension of the file and is not
    made from the file's own absolute path. *)
Theorem request_files env filePath args showSource projectRoot t req :
  prepare env filePath args showSource projectRoot = (t, Ok req) ->
  ReadFile env filePath = Ok (Source req) /\
  UserArguments (Options req) = args /\
  exists absPath,
    Abs env filePath = Ok absPath /\
    Forall (fun e => exists path,
                Rel (Dir absPath) path = Ok (Filename e) /\
                ReadFile env path = Ok (Contents e) /\
                Ext path = Ext absPath /\ path <> absPath)
           (Files req).
Proof.
  intros Hp. apply prepare_request in Hp as (source & files & Hsrc & Hfiles & ->).
  cbn [Source Options UserArguments Files mkRequest]. split; [exact Hsrc|].
  split; [reflexivity|].
  apply projectFilesOf_files in Hfiles as (absPath & searchDir & Habs & _ & ->).
  exists absPath. split; [exact Habs|].
  pose proof (collect_entries env searchDir absPath (Dir absPath)
                (fun path _ _ _ => Ext path = Ext absPath /\ path <> absPath)
                (fun _ _ _ _ _ Hext Hne _ => conj Hext Hne)) as Hall.
  destruct (collectProjectFiles env searchDir absPath (Dir absPath)) as [fs [err|]];
    cbn [fst] in Hall; [constructor|].
  eapply List.Forall_impl; [|exact Hall].
  intros e (path & name & t0 & anc & _ & [Hrel Hrd] & Hext & Hne). eauto.
Qed.

Lemma request_files_witness :
  ReadFile sampleEnv "/proj/src/main.zig"
  = Ok (Source (mkRequest "// /proj/src/main.zig"
                  [{| Filename := "lib.zig"; Contents := "// /proj/src/lib.zig" |};
                   {| Filename := "util/helper.zig";
                      Contents := "// /proj/src/util/helper.zig" |}] "-O2")).
Proof.
  apply (proj1 (request_files sampleEnv "/proj/src/main.zig" "-O2" false "" [] _
                              ltac:(vm_compute; reflexivity))).
Defined.

End Compose.

(** ** More of [compile]: the shape of a call and its errors *)
Module CompileMore.
Import GoPath Walk Cet Spec CompileFacts SpecMore.

Lemma prepare_source_flag env filePath args projectRoot :
  prepare env filePath args true projectRoot
  = (match ReadFile env filePath with
     | Ok source => sourceLines env filePath source
     | Err _ => []
     end ++ fst (prepare env filePath args false projectRoot),
     snd (prepare env filePath args false projectRoot))%list.
Proof.
  unfold prepare, bind, try, ret, when, emit, sourceLines.
  destruct (ReadFile env filePath) as [source|e]; [|reflexivity].
  destruct (projectFilesOf env filePath projectRoot) as [t [files|e]]; reflexivity.
Qed.

(** X6.  The [-source] flag is cosmetic: with it [compile] prints the two
    source lines first, provided the file could be read, and then does and
    returns exactly what it does without it. *)
Theorem source_flag_cosmetic env baseURL compiler filePath args projectRoot :
  let plain := compile env baseURL compiler filePath args false projectRoot in
  compile env baseURL compiler filePath args true projectRoot
  = (match ReadFile env filePath with
     | Ok source => sourceLines env filePath source
     | Err _ => []
     end ++ fst plain, snd plain)%list.
Proof.
  cbv zeta. rewrite !compile_cases, prepare_source_flag.
  destruct (prepare env filePath args false projectRoot) as [t [req|e]]; cbn [fst snd].
  - destruct (send env baseURL compiler req) as [t' r]. cbn [fst snd].
    now rewrite app_assoc.
  - reflexivity.
Qed.

Lemma printsOnly_app t1 t2 : printsOnly t1 -> printsOnly t2 -> printsOnly (t1 ++ t2).
Proof. intros H1 H2. apply Forall_app; split; assumption. Qed.

Lemma printsOnly_map {A} (l : list A) (f : A -> string) :
  printsOnly (map (fun x => Print (f x)) l).
Proof. induction l; constructor; auto. Qed.

Lemma render_prints env result :
  exists t, render env result = (t, Ok tt) /\ printsOnly t.
Proof.
  unfold render, Println. rewrite !forEach_Print.
  unfold bind, when, emit, ret.
  destruct (0 <? length (Asm result))%nat; eexists; (split; [reflexivity|]);
    repeat apply printsOnly_app; try apply printsOnly_map; repeat constructor.
Qed.

Lemma prepare_prints env filePath args showSource projectRoot :
  printsOnly (fst (prepare env filePath args showSource projectRoot)).
Proof.
  assert (Hfiles : printsOnly (fst (projectFilesOf env filePath projectRoot))).
  { unfold projectFilesOf, bind, try, ret, emit.
    destruct (Abs env filePath) as [absPath|e]; [|constructor].
    destruct (negb (projectRoot =? "")%string).
    all: try destruct (Abs env projectRoot) as [searchDir|e1]; simpl; try constructor.
    all: match goal with
         | |- context [collectProjectFiles ?a ?b ?c ?d] =>
             destruct (collectProjectFiles a b c d) as [files [err|]]
         end; simpl; repeat constructor. }
  unfold prepare, bind, try, ret, emit, when.
  destruct (ReadFile env filePath) as [source|e]; [|constructor].
  destruct (projectFilesOf env filePath projectRoot) as [t [files|e]];
    destruct showSource; simpl in *; rewrite ?app_nil_r;
    repeat (constructor; [reflexivity|]); auto.
Qed.

(** X7.  The shape of a call: [compile] prints, then sends its one request,
    then prints the answer, then closes the response body.  It stops before
    the request with an error; or right after it when sending failed, the
    body never opened; or it ends with the closing of the body, and then
    either returns nil, or an error with nothing printed after the request. *)
Theorem compile_shape env baseURL compiler filePath args showSource projectRoot :
  let run := compile env baseURL compiler filePath args showSource projectRoot in
  let url := compileURL baseURL compiler in
  exists pre,
    printsOnly pre /\
    ((fst run = pre /\ exists e, snd run = Err e) \/
     (exists jsonData e,
         fst run = (pre ++ [HTTPDo "POST" url requestHeader jsonData])%list /\
         Do env "POST" url requestHeader jsonData = Err e /\
         snd run = Err (Errorf "failed to send request: " e "")) \/
     (exists jsonData resp post,
         fst run = (pre ++ HTTPDo "POST" url requestHeader jsonData
                        :: post ++ [BodyClose])%list /\
         Do env "POST" url requestHeader jsonData = Ok resp /\
         printsOnly post /\
         (snd run = Ok tt \/ (post = [] /\ exists e, snd run = Err e)))).
Proof.
  cbv zeta. rewrite compile_cases.
  pose proof (prepare_prints env filePath args showSource projectRoot) as Hpre.
  destruct (prepare env filePath args showSource projectRoot) as [pre [req|e]];
    cbn [fst snd] in *; exists pre; (split; [exact Hpre|]).
  2:{ left. eauto. }
  rewrite send_cases. cbv zeta.
  destruct (Marshal env req) as [jsonData|e].
  2:{ left. cbn. rewrite app_nil_r. eauto. }
  destruct (NewRequest env "POST" _) as [e|].
  { left. cbn. rewrite app_nil_r. eauto. }
  destruct (Do env "POST" _ requestHeader jsonData) as [[body|e]|e] eqn:Hdo.
  - destruct (Unmarshal env body) as [result|e].
    + destruct (render_prints env result) as (post & Hr & Hpost). rewrite Hr.
      right. right. exists jsonData, (Ok body), post. cbn [fst snd]. auto.
    + right. right. exists jsonData, (Ok body), []. cbn [fst snd].
      repeat split; eauto; constructor.
  - right. right. exists jsonData, (Err e), []. cbn [fst snd].
    repeat split; eauto; constructor.
  - right. left. exists jsonData, e. cbn [fst snd]. auto.
Qed.

(** X8.  Every error [compile] returns is wrapped in one of its eight
    contexts, so its message starts with that context. *)
Theorem compile_error_wrapped env baseURL compiler filePath args showSource projectRoot e :
  snd (compile env baseURL compiler filePath args showSource projectRoot) = Err e ->
  exists prefix cause suffix,
    e = Errorf prefix cause suffix /\
    In prefix compileErrorPrefixes /\
    Error e = prefix +:+ Error cause +:+ suffix.
Proof.
  rewrite compile_cases.
  assert (Hfiles : forall e0, snd (projectFilesOf env filePath projectRoot) = Err e0 ->
             exists prefix cause, e0 = Errorf prefix cause "" /\
                                  In prefix compileErrorPrefixes).
  { intros e0. unfold projectFilesOf, bind, try, ret, emit.
    destruct (Abs env filePath) as [absPath|e1].
    2:{ intros [= <-]. do 2 eexists. split; [reflexivity|]. right. now left. }
    destruct (negb (projectRoot =? "")%string).
    - destruct (Abs env projectRoot) as [searchDir|e1].
      + destruct (collectProjectFiles _ _ _ _) as [files [err|]]; discriminate.
      + intros [= <-]. do 2 eexists. split; [reflexivity|]. do 2 right. now left.
    - cbn. destruct (collectProjectFiles _ _ _ _) as [files [err|]]; discriminate. }
  assert (Hprep : forall e0,
             snd (prepare env filePath args showSource projectRoot) = Err e0 ->
             exists prefix cause, e0 = Errorf prefix cause "" /\
                                  In prefix compileErrorPrefixes).
  { intros e0. unfold prepare, bind, try, ret, when, emit.
    destruct (ReadFile env filePath) as [source|e1].
    2:{ intros [= <-]. do 2 eexists. split; [reflexivity|]. now left. }
    specialize (Hfiles e0).
    destruct (projectFilesOf env filePath projectRoot) as [t [files|e1]];
      destruct showSource; cbn in *; try discriminate;
      intros [= <-]; now apply Hfiles. }
  destruct (prepare env filePath args showSource projectRoot) as [pre [req|e0]];
    cbn [snd] in *.
  - rewrite send_cases. cbv zeta.
    destruct (Marshal env req) as [jsonData|e1].
    2:{ intros [= <-]. do 3 eexists. split; [reflexivity|].
        split; [|reflexivity]. do 3 right. now left. }
    destruct (NewRequest env "POST" _) as [e1|].
    { intros [= <-]. do 3 eexists. split; [reflexivity|].
      split; [|reflexivity]. do 4 right. now left. }
    destruct (Do env "POST" _ requestHeader jsonData) as [[body|e1]|e1].
    + destruct (Unmarshal env body) as [result|e1]; [discriminate|].
      intros [= <-]. do 3 eexists. split; [reflexivity|].
      split; [|reflexivity]. do 7 right. now left.
    + intros [= <-]. do 3 eexists. split; [reflexivity|].
      split; [|reflexivity]. do 6 right. now left.
    + intros [= <-]. do 3 eexists. split; [reflexivity|].
      split; [|reflexivity]. do 5 right. now left.
  - intros [= <-]. destruct (Hprep e0 eq_refl) as (prefix & cause & -> & Hin).
    exists prefix, cause, "". auto.
Qed.

Lemma compile_error_wrapped_witness :
  exists prefix cause suffix,
    Errorf "failed to send request: " (ErrNew "dial tcp: connection refused") ""
    = Errorf prefix cause suffix /\
    In prefix compileErrorPrefixes /\
    Error (Errorf "failed to send request: " (ErrNew "dial tcp: connection refused") "")
    = prefix +:+ Error cause +:+ suffix.
Proof.
  apply (compile_error_wrapped offlineEnv "https://godbolt.org" "ztrunk"
                               "/proj/src/main.zig" "-O2" false "").
  vm_compute. reflexivity.
Defined.

Lemma substring_0_length (n : nat) (s : string) :
  String.length (substring 0 n s) = Nat.min n (String.length s).
Proof.
  revert n. induction s as [|c s IH]; intros [|n]; cbn; try reflexivity.
  now rewrite IH.
Qed.

Lemma substring_0_prefix (n : nat) (s : string) :
  String.prefix (substring 0 n s) s = true.
Proof.
  revert n. induction s as [|c s IH]; intros [|n]; cbn; try reflexivity.
  destruct (Ascii.ascii_dec c c) as [_|Hne]; [apply IH|now destruct Hne].
Qed.

Lemma substring_0_all (n : nat) (s : string) :
  (String.length s <= n)%nat -> substring 0 n s = s.
Proof.
  revert n. induction s as [|c s IH]; intros [|n] H; cbn in *; try reflexivity; try lia.
  rewrite IH by lia. reflexivity.
Qed.

(** X9.  When the answer cannot be parsed, nothing of it is printed, the
    response body is closed all the same, and the error quotes the answer:
    its first 500 bytes, or all of it when it is shorter. *)
Theorem parse_error_quotes_body
        env baseURL compiler filePath args showSource projectRoot
        t req jsonData body e :
  prepare env filePath args showSource projectRoot = (t, Ok req) ->
  Marshal env req = Ok jsonData ->
  NewRequest env "POST" (compileURL baseURL compiler) = None ->
  Do env "POST" (compileURL baseURL compiler) requestHeader jsonData = Ok (Ok body) ->
  Unmarshal env body = Err e ->
  exists quoted,
    compile env baseURL compiler filePath args showSource projectRoot
    = ((t ++ [HTTPDo "POST" (compileURL baseURL compiler) requestHeader jsonData;
              BodyClose])%list,
       Err (Errorf "failed to parse response: " e (LF +:+ "Body: " +:+ quoted))) /\
    String.prefix quoted body = true /\
    String.length quoted = Nat.min 500 (String.length body) /\
    ((String.length body <= 500)%nat -> quoted = body).
Proof.
  intros Hp Hm Hn Hd Hu. rewrite compile_cases, Hp, send_cases. cbv zeta.
  rewrite Hm, Hn, Hd, Hu. unfold slice. rewrite Nat.sub_0_r.
  eexists. split; [reflexivity|]. split; [apply substring_0_prefix|]. split.
  - rewrite substring_0_length. lia.
  - intros Hle. apply substring_0_all. lia.
Qed.

(** A gateway's short page is quoted whole. *)
Lemma parse_error_quotes_body_witness :
  snd (compile garbledEnv "https://godbolt.org" "ztrunk" "/proj/src/main.zig" "-O2"
               false "")
  = Err (Errorf "failed to parse response: "
                (ErrNew "invalid character '<' looking for beginning of value")
                (LF +:+ "Body: " +:+ "<html>502 Bad Gateway</html>")).
Proof.
  destruct (parse_error_quotes_body
              garbledEnv "https://godbolt.org" "ztrunk" "/proj/src/main.zig" "-O2"
              false "" _ _ _ "<html>502 Bad Gateway</html>"
              (ErrNew "invalid character '<' looking for beginning of value")
              ltac:(vm_compute; reflexivity) ltac:(vm_compute; reflexivity)
              ltac:(vm_compute; reflexivity) ltac:(vm_compute; reflexivity)
              ltac:(vm_compute; reflexivity))
    as (quoted & Hrun & _ & _ & Hall).
  rewrite Hrun, (Hall ltac:(vm_compute; lia)). reflexivity.
Defined.

End CompileMore.

(** ** More of [watch] and [main]: bursts, returns, exit status *)
Module WatchMore.
Import GoPath Walk Cet Spec CompileFacts WatchFacts MainFacts SpecMore.

Lemma countIf_le_1 {A} (p : A -> bool) (l : list A) :
  (forall (i j : nat) (x y : A),
      l !! i = Some x -> l !! j = Some y -> p x = true -> p y = true -> i = j) ->
  (countIf p l <= 1)%nat.
Proof.
  induction l as [|a l IH]; intros Huniq; cbn [countIf]; [lia|].
  destruct (p a) eqn:Ha.
  - assert (Hnone : Forall (fun x => p x = false) l).
    { apply List.Forall_forall. intros x Hx.
      apply list_elem_of_In, list_elem_of_lookup in Hx as [j Hj].
      destruct (p x) eqn:Hpx; [|reflexivity].
      specialize (Huniq 0%nat (S j) a x eq_refl Hj Ha Hpx). discriminate. }
    rewrite (countIf_none _ _ Hnone). lia.
  - assert (countIf p l <= 1)%nat; [|lia].
    apply IH. intros i j x y Hi Hj Hx Hy.
    specialize (Huniq (S i) (S j) x y Hi Hj Hx Hy). lia.
Qed.

Lemma debounced_pendingCount last st : debounced last st -> (pendingCount st <= 1)%nat.
Proof.
  intros Hinv. apply countIf_le_1. intros i j x y Hi Hj Hx Hy.
  unfold isPending in Hx, Hy.
  destruct (Status x) eqn:Hsx; try discriminate.
  destruct (Status y) eqn:Hsy; try discriminate.
  destruct (Hinv i x Hi Hsx) as [Hdi _], (Hinv j y Hj Hsy) as [Hdj _]. congruence.
Qed.

Section Burst.
Variable world : Z -> Env.
Variables baseURL compiler filePath args : string.
Variable showSource : bool.
Variable projectRoot : string.
Variable absPath : string.
Variable T : Z.

Let loop' := loop world baseURL compiler filePath args showSource projectRoot absPath.

(** Past the instant [T] no event of a burst qualifies. *)
Lemma burst_over schedule : forall lo,
    T <= lo -> timesFrom lo schedule -> burst absPath T schedule ->
    countIf (isQualifying absPath) (handled schedule) = 0%nat.
Proof.
  induction schedule as [|[now inp] rest IH]; intros lo Hlo Ht Hb; [reflexivity|].
  cbn [timesFrom] in Ht. destruct Ht as [Hnow Ht].
  inversion Hb as [|? ? Hx Hb']; subst.
  assert (Hrest : countIf (isQualifying absPath) (handled rest) = 0%nat).
  { apply (IH now); [lia|exact Ht|exact Hb']. }
  destruct inp as [event| |err| |id]; cbn [handled countIf]; try reflexivity;
    try (rewrite Hrest; reflexivity).
  destruct (isQualifying absPath (now, RecvEvent event)) eqn:Hq.
  - specialize (Hx eq_refl). cbn [fst] in Hx. lia.
  - rewrite Hrest. reflexivity.
Qed.

Lemma burst_rest st schedule lo :
  T <= lo -> timesFrom lo schedule -> burst absPath T schedule ->
  (compileCount (fst (loop' st schedule)) <= pendingCount st)%nat.
Proof.
  intros Hlo Ht Hb.
  pose proof (loop_compileCount world baseURL compiler filePath args showSource
                projectRoot absPath schedule st) as Hc. cbv zeta in Hc.
  pose proof (loop_afterFuncCount world baseURL compiler filePath args showSource
                projectRoot absPath schedule st) as Ha.
  rewrite (burst_over schedule lo Hlo Ht Hb) in Ha. unfold loop'. lia.
Qed.

Lemma burst_loop schedule : forall st lo last,
    debounced last st ->
    (forall (id : nat) (tm : Timer),
        timers st !! id = Some tm -> Status tm = Pending -> T <= When tm) ->
    timesFrom lo schedule -> burst absPath T schedule ->
    (compileCount (fst (loop' st schedule)) <= 1)%nat.
Proof.
  induction schedule as [|[now inp] rest IH]; intros st lo last Hinv Hdue Ht Hb;
    [cbn; lia|].
  cbn [timesFrom] in Ht. destruct Ht as [Hnow Ht].
  inversion Hb as [|? ? Hx Hb']; subst.
  unfold loop' in *. cbn [loop]. destruct inp as [event| |err| |id].
  - destruct (qualifies absPath event) eqn:Hq.
    + pose proof (onEvent_debounced absPath last st now event Hinv Hq) as Hnew.
      pose proof (onEvent_counts absPath st now event) as Hcount.
      destruct (onEvent absPath st now event) as [st' acts]. cbn [fst] in Hnew.
      destruct Hcount as [Hc0 _].
      specialize (Hx Hq). cbn [fst] in Hx.
      assert (IH' := IH st' now (Some now)).
      destruct (loop _ _ _ _ _ _ _ _ st' rest) as [acts' r]. cbn [fst] in *.
      rewrite compileCount_app, Hc0. apply IH'; auto.
      * intros id tm Hlk Hp. destruct (Hnew id tm Hlk Hp) as (_ & Hw & Hd).
        split; [exact Hd|]. eauto.
      * intros id tm Hlk Hp. destruct (Hnew id tm Hlk Hp) as (_ & Hw & _). lia.
    + rewrite onEvent_not_qualifying by exact Hq.
      assert (IH' := IH st now last Hinv Hdue Ht Hb').
      destruct (loop _ _ _ _ _ _ _ _ st rest) as [acts' r]. exact IH'.
  - cbn. lia.
  - assert (IH' := IH st now last Hinv Hdue Ht Hb').
    destruct (loop _ _ _ _ _ _ _ _ st rest) as [acts' r]. cbn [fst] in *.
    change (compileCount (Out ?x :: acts')) with (compileCount acts'). exact IH'.
  - cbn. lia.
  - pose proof (onExpire_counts world baseURL compiler filePath args showSource
                  projectRoot st now id) as Hcount.
    pose proof (onExpire_runs world baseURL compiler filePath args showSource
                  projectRoot st now id) as Hruns.
    pose proof (onExpire_debounced world baseURL compiler filePath args showSource
                  projectRoot last st now id Hinv) as Hinv'.
    pose proof (debounced_pendingCount last st Hinv) as Hone.
    destruct (onExpire _ _ _ _ _ _ _ st now id) as [st' acts] eqn:Hon.
    cbn [fst snd] in *. destruct Hcount as [_ Hcount].
    destruct acts as [|a acts].
    + (* nothing ran: the state is the same *)
      assert (st' = st) as ->.
      { unfold onExpire in Hon.
        destruct (timers st !! id) as [[w []]|]; try now injection Hon as <-.
        destruct (w <=? now); [discriminate|now injection Hon as <-]. }
      assert (IH' := IH st now last Hinv Hdue Ht Hb').
      destruct (loop _ _ _ _ _ _ _ _ st rest) as [acts' r]. exact IH'.
    + destruct Hruns as (w & Hlk & Hle); [discriminate|].
      specialize (Hdue id _ Hlk eq_refl). cbn [When] in Hdue.
      pose proof (burst_rest st' rest now ltac:(lia) Ht Hb') as Hrest.
      unfold loop' in Hrest.
      destruct (loop _ _ _ _ _ _ _ _ st' rest) as [acts' r]. cbn [fst] in *.
      rewrite compileCount_app. lia.
Qed.

End Burst.

(** X10.  A burst of changes gives one recompile: when the inputs come in
    the order of their times and every qualifying event is received within
    less than 100 ms before one instant, the loop compiles at most once,
    however many events there are and whenever the timers are looked at. *)
Theorem burst_compiles_once
        world baseURL compiler filePath args showSource projectRoot
        absPath T lo schedule :
  timesFrom lo schedule ->
  burst absPath T schedule ->
  (compileCount (fst (loop world baseURL compiler filePath args showSource projectRoot
                           absPath initialState schedule)) <= 1)%nat.
Proof.
  intros Ht Hb.
  eapply (burst_loop world baseURL compiler filePath args showSource projectRoot
                     absPath T schedule initialState lo None);
    [apply debounced_initial| |exact Ht|exact Hb].
  intros id tm H. cbn [initialState timers] in H. now rewrite lookup_nil in H.
Qed.

(** Twenty events or two: the sample schedule followed by looks at both
    timers compiles once. *)
Lemma burst_compiles_once_witness :
  (compileCount
     (fst (loop (fun _ => sampleEnv) "https://godbolt.org" "ztrunk" "/proj/src/main.zig"
                "" false "" "/proj/src/main.zig" initialState
                burstSchedule))
   <= 1)%nat.
Proof.
  apply (burst_compiles_once (fun _ => sampleEnv) "https://godbolt.org" "ztrunk"
                             "/proj/src/main.zig" "" false "" "/proj/src/main.zig"
                             100 0).
  - cbn. lia.
  - repeat constructor; cbn; try discriminate; unfold Millisecond; lia.
Defined.

Section Returns.
Variable world : Z -> Env.
Variables baseURL compiler filePath args : string.
Variable showSource : bool.
Variable projectRoot : string.

Let loop' := loop world baseURL compiler filePath args showSource projectRoot.
Let watch' := watch world baseURL compiler filePath args showSource projectRoot.

(** The loop returns exactly when its schedule has a closed channel. *)
Lemma loop_closed absPath schedule : forall st,
    (existsb isClose schedule = true ->
     snd (loop' absPath st schedule) = Returned None) /\
    (existsb isClose schedule = false ->
     exists st', snd (loop' absPath st schedule) = Blocked st').
Proof.
  unfold loop'.
  induction schedule as [|[now inp] rest IH]; intros st.
  - cbn. split; [discriminate|eauto].
  - cbn [loop existsb isClose snd]. destruct inp as [event| |err| |id]; cbn [orb].
    + destruct (onEvent absPath st now event) as [st1 acts1].
      specialize (IH st1).
      destruct (loop _ _ _ _ _ _ _ _ st1 rest) as [acts' r]. exact IH.
    + split; [reflexivity|discriminate].
    + specialize (IH st).
      destruct (loop _ _ _ _ _ _ _ _ st rest) as [acts' r]. exact IH.
    + split; [reflexivity|discriminate].
    + destruct (onExpire _ _ _ _ _ _ _ st now id) as [st1 acts1].
      specialize (IH st1).
      destruct (loop _ _ _ _ _ _ _ _ st1 rest) as [acts' r]. exact IH.
Qed.

(** Nothing in the loop makes or closes a watcher. *)
Lemma loop_no_watcher absPath schedule : forall st,
    Forall (fun a => a <> WatcherNew /\ a <> WatcherClose)
           (fst (loop' absPath st schedule)).
Proof.
  unfold loop'.
  induction schedule as [|[now inp] rest IH]; intros st; [constructor|].
  cbn [loop]. destruct inp as [event| |err| |id].
  - assert (Hstep : Forall (fun a => a <> WatcherNew /\ a <> WatcherClose)
                           (snd (onEvent absPath st now event))).
    { unfold onEvent. destruct (qualifies absPath event); [|constructor].
      destruct (debounce st); cbn; repeat constructor; discriminate. }
    destruct (onEvent absPath st now event) as [st1 acts1].
    specialize (IH st1). destruct (loop _ _ _ _ _ _ _ _ st1 rest) as [acts' r].
    apply Forall_app; split; assumption.
  - constructor.
  - specialize (IH st). destruct (loop _ _ _ _ _ _ _ _ st rest) as [acts' r].
    constructor; [split; discriminate|assumption].
  - constructor.
  - assert (Hstep : Forall (fun a => a <> WatcherNew /\ a <> WatcherClose)
                           (snd (onExpire world baseURL compiler filePath args
                                          showSource projectRoot st now id))).
    { unfold onExpire. destruct (timers st !! id) as [[w []]|]; try constructor.
      destruct (w <=? now); [|constructor]. cbn. unfold recompile, compileAndReport.
      destruct (compile _ _ _ _ _ _ _) as [t [[]|e]];
        repeat constructor; discriminate. }
    destruct (onExpire _ _ _ _ _ _ _ st now id) as [st1 acts1].
    specialize (IH st1). destruct (loop _ _ _ _ _ _ _ _ st1 rest) as [acts' r].
    apply Forall_app; split; assumption.
Qed.

(** [watch] fails in its setup or hands over to the loop. *)
Lemma watch_cases start schedule :
  let env := world start in
  watch' start schedule =
  match NewWatcher env with
  | Some err => ([], Returned (Some (Errorf "failed to create watcher: " err "")))
  | None =>
      match Abs env filePath with
      | Err err =>
          ([WatcherNew; WatcherClose],
           Returned (Some (Errorf "failed to get absolute path: " err "")))
      | Ok absPath =>
          match WatcherAdd env (Dir absPath) with
          | Some err =>
              ([WatcherNew; WatcherClose],
               Returned (Some (Errorf "failed to watch directory: " err "")))
          | None =>
              let body :=
                (WatcherNew
                   :: [Out (Print (ESC +:+ "[34m⚡ Watching " +:+ filePath
                                       +:+ ESC +:+ "[0m" +:+ LF));
                       Out (Print (ESC +:+ "[34m   Compiler: " +:+ compiler
                                       +:+ ESC +:+ "[0m" +:+ LF));
                       Out (Print (ESC +:+ "[34m   Args: " +:+ args
                                       +:+ ESC +:+ "[0m" +:+ LF));
                       Out (Print (ESC +:+ "[34m   Server: " +:+ baseURL
                                       +:+ ESC +:+ "[0m" +:+ LF +:+ LF))]
                   ++ compileAndReport world baseURL compiler filePath args
                                       showSource projectRoot start reportStdout
                   ++ fst (loop' absPath initialState schedule))%list in
              match snd (loop' absPath initialState schedule) with
              | Returned err => ((body ++ [WatcherClose])%list, Returned err)
              | Blocked st => (body, Blocked st)
              end
          end
      end
  end.
Proof.
  cbv zeta. unfold watch', watch, loop'.
  destruct (NewWatcher (world start)); [reflexivity|].
  destruct (Abs (world start) filePath) as [absPath|e]; [|reflexivity].
  destruct (WatcherAdd (world start) (Dir absPath)); [reflexivity|].
  destruct (loop _ _ _ _ _ _ _ _ initialState schedule) as [acts [err|st]]; reflexivity.
Qed.

Lemma watch_body_keeps_watcher start absPath schedule :
  ~ In WatcherClose
      (WatcherNew
         :: [Out (Print (ESC +:+ "[34m⚡ Watching " +:+ filePath
                             +:+ ESC +:+ "[0m" +:+ LF));
             Out (Print (ESC +:+ "[34m   Compiler: " +:+ compiler
                             +:+ ESC +:+ "[0m" +:+ LF));
             Out (Print (ESC +:+ "[34m   Args: " +:+ args
                             +:+ ESC +:+ "[0m" +:+ LF));
             Out (Print (ESC +:+ "[34m   Server: " +:+ baseURL
                             +:+ ESC +:+ "[0m" +:+ LF +:+ LF))]
         ++ compileAndReport world baseURL compiler filePath args
                             showSource projectRoot start reportStdout
         ++ fst (loop' absPath initialState schedule))%list.
Proof.
  intros [H|Hin]; [discriminate|].
  apply in_app_or in Hin as [Hin|Hin].
  { repeat (destruct Hin as [H|Hin]; [discriminate|]). destruct Hin. }
  apply in_app_or in Hin as [Hin|Hin].
  - unfold compileAndReport in Hin.
    destruct (compile _ _ _ _ _ _ _) as [t [[]|e]];
      repeat (destruct Hin as [H|Hin]; [discriminate|]); destruct Hin.
  - pose proof (loop_no_watcher absPath schedule initialState) as Hno.
    eapply List.Forall_forall in Hno; [|exact Hin]. now destruct Hno.
Qed.

End Returns.

(** Errors of [watch] come from its setup; after it, the schedule decides. *)
Lemma watch_outcome
      world baseURL compiler filePath args showSource projectRoot start schedule :
  let env := world start in
  let run := watch world baseURL compiler filePath args showSource projectRoot
                   start schedule in
  (forall err,
      snd run = Returned (Some err) ->
      compileCount (fst run) = 0%nat /\
      forall absPath, ~ watcherReady env filePath absPath) /\
  (forall absPath,
      watcherReady env filePath absPath ->
      (existsb isClose schedule = true -> snd run = Returned None) /\
      (existsb isClose schedule = false -> exists st, snd run = Blocked st)).
Proof.
  cbv zeta. rewrite watch_cases. cbv zeta.
  destruct (NewWatcher (world start)) as [e|] eqn:Hnew.
  { split.
    - intros err _. split; [reflexivity|]. intros absPath (H & _). congruence.
    - intros absPath (H & _). congruence. }
  destruct (Abs (world start) filePath) as [absPath|e] eqn:Habs.
  2:{ split.
      - intros err _. split; [reflexivity|]. intros absPath (_ & H & _). congruence.
      - intros absPath (_ & H & _). congruence. }
  destruct (WatcherAdd (world start) (Dir absPath)) as [e|] eqn:Hadd.
  { split.
    - intros err _. split; [reflexivity|]. intros absPath' (_ & H & H').
      rewrite Habs in H. injection H as <-. congruence.
    - intros absPath' (_ & H & H'). rewrite Habs in H. injection H as <-. congruence. }
  pose proof (loop_closed world baseURL compiler filePath args showSource projectRoot
                absPath schedule initialState) as [Hclosed Hopen].
  pose proof (loop_result world baseURL compiler filePath args showSource projectRoot
                absPath schedule initialState) as Hres.
  destruct (snd (loop _ _ _ _ _ _ _ _ initialState schedule)) as [err0|st0] eqn:Hl.
  - destruct Hres as [Hres|[st' Hres]]; [|discriminate]. injection Hres as ->.
    split; [intros err H; discriminate|].
    intros absPath' _. split; [reflexivity|].
    intros Hno. destruct (Hopen Hno) as [st' H]. discriminate.
  - split; [intros err H; discriminate|].
    intros absPath' _. split; [|eauto].
    intros Hyes. specialize (Hclosed Hyes). discriminate.
Qed.

(** X11.  How [watch] returns.  An error comes from the setup only, before
    anything is compiled.  Once the watcher is set up, [watch] returns
    exactly when one of the two channels is found closed, and then nil;
    otherwise it stays in its loop.  A watcher that was made is closed
    when [watch] returns, as its last action, and never while it loops. *)
Theorem watch_return_discipline
        world baseURL compiler filePath args showSource projectRoot start schedule :
  let env := world start in
  let run := watch world baseURL compiler filePath args showSource projectRoot
                   start schedule in
  (forall err,
      snd run = Returned (Some err) ->
      compileCount (fst run) = 0%nat /\
      forall absPath, ~ watcherReady env filePath absPath) /\
  (forall absPath,
      watcherReady env filePath absPath ->
      (existsb isClose schedule = true -> snd run = Returned None) /\
      (existsb isClose schedule = false -> exists st, snd run = Blocked st)) /\
  (NewWatcher env = None ->
   (forall err, snd run = Returned err ->
                exists acts, fst run = (acts ++ [WatcherClose])%list /\
                             ~ In WatcherClose acts) /\
   (forall st, snd run = Blocked st -> ~ In WatcherClose (fst run))).
Proof.
  pose proof (watch_outcome world baseURL compiler filePath args showSource projectRoot
                start schedule) as [Herr Hready].
  cbv zeta in *. split; [exact Herr|]. split; [exact Hready|].
  rewrite watch_cases. cbv zeta. intros ->.
  destruct (Abs (world start) filePath) as [absPath|e] eqn:Habs.
  2:{ split; [|discriminate]. intros err _.
      exists [WatcherNew]. split; [reflexivity|]. intros [H|[]]. discriminate. }
  destruct (WatcherAdd (world start) (Dir absPath)) as [e|] eqn:Hadd.
  { split; [|discriminate]. intros err _.
    exists [WatcherNew]. split; [reflexivity|]. intros [H|[]]. discriminate. }
  pose proof (watch_body_keeps_watcher world baseURL compiler filePath args showSource
                projectRoot start absPath schedule) as Hkeep.
  destruct (snd (loop _ _ _ _ _ _ _ _ initialState schedule)) as [err0|st0].
  - split; [|discriminate]. intros err _. eexists. split; [reflexivity|exact Hkeep].
  - split; [discriminate|]. intros st _. exact Hkeep.
Qed.

Lemma watch_return_discipline_witness :
  exists st, snd (watch (fun _ => sampleEnv) "https://godbolt.org" "ztrunk"
                        "/proj/src/main.zig" "" false "" 0 burstSchedule)
             = Blocked st.
Proof.
  apply (proj1 (proj2 (watch_return_discipline
                         (fun _ => sampleEnv) "https://godbolt.org" "ztrunk"
                         "/proj/src/main.zig" "" false "" 0 burstSchedule))
               "/proj/src/main.zig").
  - repeat split; reflexivity.
  - reflexivity.
Defined.


End WatchMore.

(** ** The accounts of the timers *)
Module TimerAccounts.
Import GoPath Walk Cet Spec CompileFacts WatchFacts MainFacts SpecMore WatchMore.

Section Accounts.
Variable world : Z -> Env.
Variables baseURL compiler filePath args : string.
Variable showSource : bool.
Variable projectRoot : string.

Lemma stopTimer_firedCount (id : nat) (ts : list Timer) :
  countIf isFired (stopTimer id ts) = countIf isFired ts.
Proof.
  unfold stopTimer. destruct (ts !! id) as [[w status]|] eqn:Hid; [|reflexivity].
  destruct status; try reflexivity.
  pose proof (countIf_insert isFired ts id {| When := w; Status := Stopped |} _ Hid) as H.
  cbn in H. lia.
Qed.

Lemma onEvent_accounts absPath st now event :
  let '(st', acts) := onEvent absPath st now event in
  firedCount st' = firedCount st /\
  length (timers st') = (length (timers st) + afterFuncCount acts)%nat.
Proof.
  destruct (qualifies absPath event) eqn:Hq.
  - rewrite onEvent_qualifying by exact Hq. unfold firedCount. cbn [timers].
    rewrite countIf_app, length_app, afterFuncCount_app. cbn.
    destruct (debounce st) as [id|]; cbn.
    + rewrite stopTimer_firedCount, stopTimer_length. split; lia.
    + split; lia.
  - rewrite onEvent_not_qualifying by exact Hq. cbn. split; lia.
Qed.

Lemma onExpire_accounts st now id :
  let '(st', acts) := onExpire world baseURL compiler filePath args showSource
                               projectRoot st now id in
  firedCount st' = (firedCount st + compileCount acts)%nat /\
  length (timers st') = length (timers st).
Proof.
  unfold onExpire.
  destruct (timers st !! id) as [[w status]|] eqn:Hid; [|cbn; split; lia].
  destruct status; try (cbn; split; lia).
  destruct (w <=? now); [|cbn; split; lia].
  unfold recompile, firedCount. cbn [timers].
  pose proof (compileAndReport_counts world baseURL compiler filePath args showSource
                projectRoot now reportStdout) as [Hc _]. cbv zeta in Hc.
  pose proof (countIf_insert isFired (timers st) id {| When := w; Status := Fired |}
                _ Hid) as H. cbn in H.
  split; [|apply length_insert].
  change (compileCount (Out Clear :: Out ?x :: ?l)) with (compileCount l).
  rewrite Hc. lia.
Qed.

Lemma loop_accounts absPath schedule : forall st acts st',
    loop world baseURL compiler filePath args showSource projectRoot
         absPath st schedule = (acts, Blocked st') ->
    firedCount st' = (firedCount st + compileCount acts)%nat /\
    length (timers st') = (length (timers st) + afterFuncCount acts)%nat.
Proof.
  induction schedule as [|[now inp] rest IH]; intros st acts st'.
  - intros [= <- <-]. cbn. split; lia.
  - cbn [loop]. destruct inp as [event| |err| |id].
    + pose proof (onEvent_accounts absPath st now event) as H.
      pose proof (onEvent_counts absPath st now event) as Hc.
      destruct (onEvent absPath st now event) as [st1 acts1].
      destruct (loop _ _ _ _ _ _ _ _ st1 rest) as [acts' r] eqn:Hl.
      intros [= <- ->]. apply IH in Hl as [Hf Hn].
      rewrite compileCount_app, afterFuncCount_app. lia.
    + discriminate.
    + destruct (loop _ _ _ _ _ _ _ _ st rest) as [acts' r] eqn:Hl.
      intros [= <- ->]. apply IH in Hl as [Hf Hn].
      change (compileCount (Out ?x :: acts')) with (compileCount acts').
      change (afterFuncCount (Out ?x :: acts')) with (afterFuncCount acts'). lia.
    + discriminate.
    + pose proof (onExpire_accounts st now id) as H.
      pose proof (onExpire_afterFuncCount world baseURL compiler filePath args
                    showSource projectRoot st now id) as Ha.
      destruct (onExpire _ _ _ _ _ _ _ st now id) as [st1 acts1]. cbn [snd] in Ha.
      destruct (loop _ _ _ _ _ _ _ _ st1 rest) as [acts' r] eqn:Hl.
      intros [= <- ->]. apply IH in Hl as [Hf Hn].
      rewrite compileCount_app, afterFuncCount_app. lia.
Qed.

End Accounts.

(** X13.  The accounts of the timers: wherever the loop stands, there are
    as many timers as qualifying events were handled, the recompiles done
    are as many as the timers that fired, and at most one of the other
    timers still waits: no timer is lost, and none runs twice. *)
Theorem timer_accounts
        world baseURL compiler filePath args showSource projectRoot
        absPath schedule acts st :
  loop world baseURL compiler filePath args showSource projectRoot
       absPath initialState schedule = (acts, Blocked st) ->
  length (timers st) = countIf (isQualifying absPath) (handled schedule) /\
  compileCount acts = firedCount st /\
  (firedCount st <= length (timers st))%nat /\
  (pendingCount st <= 1)%nat.
Proof.
  intros Hl.
  pose proof (loop_accounts world baseURL compiler filePath args showSource projectRoot
                absPath schedule initialState acts st Hl) as [Hf Hn].
  pose proof (loop_afterFuncCount world baseURL compiler filePath args showSource
                projectRoot absPath schedule initialState) as Ha.
  pose proof (loop_compileCount world baseURL compiler filePath args showSource
                projectRoot absPath schedule initialState) as Hc.
  pose proof (loop_debounced world baseURL compiler filePath args showSource
                projectRoot absPath schedule None initialState acts st
                (debounced_initial None) Hl) as Hinv.
  cbv zeta in Hc. rewrite Hl in Ha, Hc. cbn [fst] in *.
  change (firedCount initialState) with 0%nat in Hf.
  change (pendingCount initialState) with 0%nat in Hc.
  cbn [initialState timers length] in Hn.
  repeat split; try lia.
  exact (debounced_pendingCount _ _ Hinv).
Qed.

(** The sample burst: one timer stopped, one fired, one recompile. *)
Lemma timer_accounts_witness :
  compileCount
    (fst (loop (fun _ => sampleEnv) "https://godbolt.org" "ztrunk" "/proj/src/main.zig"
               "" false "" "/proj/src/main.zig" initialState burstSchedule))
  = firedCount {| timers := [{| When := 100000005; Status := Stopped |};
                             {| When := 100000007; Status := Fired |}];
                  debounce := Some 1%nat |}.
Proof.
  refine (proj1 (proj2 (timer_accounts
                          (fun _ => sampleEnv) "https://godbolt.org" "ztrunk"
                          "/proj/src/main.zig" "" false "" "/proj/src/main.zig"
                          burstSchedule _ _ _))).
  vm_compute; reflexivity.
Defined.

End TimerAccounts.

(** ** Inputs that pass through the loop *)
Module PassFacts.
Import GoPath Walk Cet Spec CompileFacts WatchFacts MainFacts SpecMore.

Section Passing.
Variable world : Z -> Env.
Variables baseURL compiler filePath args : string.
Variable showSource : bool.
Variable projectRoot : string.

Lemma onEvent_no_error_line absPath st now event :
  List.filter (fun a => negb (isWatcherErrorLine a)) (snd (onEvent absPath st now event))
  = snd (onEvent absPath st now event).
Proof.
  unfold onEvent. destruct (qualifies absPath event); [|reflexivity].
  destruct (debounce st); reflexivity.
Qed.

Lemma onExpire_no_error_line st now id :
  List.filter (fun a => negb (isWatcherErrorLine a))
              (snd (onExpire world baseURL compiler filePath args showSource
                             projectRoot st now id))
  = snd (onExpire world baseURL compiler filePath args showSource projectRoot st now id).
Proof.
  unfold onExpire. destruct (timers st !! id) as [[w status]|]; [|reflexivity].
  destruct status; try reflexivity. destruct (w <=? now); [|reflexivity].
  cbn [snd]. unfold recompile, compileAndReport, reportStdout.
  destruct (compile _ _ _ _ _ _ _) as [t [[]|err]]; reflexivity.
Qed.

Lemma onEvent_error_lines absPath st now event :
  countIf isWatcherErrorLine (snd (onEvent absPath st now event)) = 0%nat.
Proof.
  unfold onEvent. destruct (qualifies absPath event); [|reflexivity].
  destruct (debounce st); reflexivity.
Qed.

Lemma onExpire_error_lines st now id :
  countIf isWatcherErrorLine
          (snd (onExpire world baseURL compiler filePath args showSource
                         projectRoot st now id)) = 0%nat.
Proof.
  unfold onExpire. destruct (timers st !! id) as [[w status]|]; [|reflexivity].
  destruct status; try reflexivity. destruct (w <=? now); [|reflexivity].
  cbn [snd]. unfold recompile, compileAndReport, reportStdout.
  destruct (compile _ _ _ _ _ _ _) as [t [[]|err]]; reflexivity.
Qed.

Lemma error_line (rest : string) :
  isWatcherErrorLine (Out (Print (ESC +:+ "[31mWatcher error: " +:+ rest))) = true.
Proof. destruct rest; reflexivity. Qed.

Lemma loop_passes absPath schedule : forall st,
    loop world baseURL compiler filePath args showSource projectRoot absPath st
         (List.filter (fun ti => negb (passes absPath ti)) schedule)
    = (List.filter (fun a => negb (isWatcherErrorLine a))
                   (fst (loop world baseURL compiler filePath args showSource projectRoot
                              absPath st schedule)),
       snd (loop world baseURL compiler filePath args showSource projectRoot
                 absPath st schedule)).
Proof.
  induction schedule as [|[now inp] rest IH]; intros st; [reflexivity|].
  cbn [List.filter loop]. destruct inp as [event| |err| |id]; unfold passes; cbn [snd negb].
  - destruct (qualifies absPath event) eqn:Hq; cbn [negb].
    + cbn [loop]. pose proof (onEvent_no_error_line absPath st now event) as Hf.
      destruct (onEvent absPath st now event) as [st1 acts1]. cbn [snd] in Hf.
      rewrite IH. destruct (loop _ _ _ _ _ _ _ _ st1 rest) as [acts' r]. cbn [fst snd].
      now rewrite List.filter_app, Hf.
    + rewrite onEvent_not_qualifying by exact Hq. rewrite IH.
      destruct (loop _ _ _ _ _ _ _ _ st rest) as [acts' r]. reflexivity.
  - reflexivity.
  - rewrite IH. destruct (loop _ _ _ _ _ _ _ _ st rest) as [acts' r].
    cbn [fst snd List.filter]. now rewrite error_line.
  - reflexivity.
  - cbn [loop]. pose proof (onExpire_no_error_line st now id) as Hf.
    destruct (onExpire _ _ _ _ _ _ _ st now id) as [st1 acts1]. cbn [snd] in Hf.
    rewrite IH. destruct (loop _ _ _ _ _ _ _ _ st1 rest) as [acts' r]. cbn [fst snd].
    now rewrite List.filter_app, Hf.
Qed.

Lemma loop_error_lines absPath schedule : forall st,
    countIf isWatcherErrorLine
            (fst (loop world baseURL compiler filePath args showSource projectRoot
                       absPath st schedule))
    = countIf (fun ti => match snd ti with RecvError _ => true | _ => false end)
              (handled schedule).
Proof.
  induction schedule as [|[now inp] rest IH]; intros st; [reflexivity|].
  cbn [loop handled]. destruct inp as [event| |err| |id]; cbn [countIf snd].
  - pose proof (onEvent_error_lines absPath st now event) as Hf.
    destruct (onEvent absPath st now event) as [st1 acts1]. cbn [snd] in Hf.
    specialize (IH st1). destruct (loop _ _ _ _ _ _ _ _ st1 rest) as [acts' r].
    cbn [fst] in *. rewrite countIf_app, Hf, IH. reflexivity.
  - reflexivity.
  - specialize (IH st). destruct (loop _ _ _ _ _ _ _ _ st rest) as [acts' r].
    cbn [fst countIf] in *. now rewrite error_line, IH.
  - reflexivity.
  - pose proof (onExpire_error_lines st now id) as Hf.
    destruct (onExpire _ _ _ _ _ _ _ st now id) as [st1 acts1]. cbn [snd] in Hf.
    specialize (IH st1). destruct (loop _ _ _ _ _ _ _ _ st1 rest) as [acts' r].
    cbn [fst] in *. rewrite countIf_app, Hf, IH. reflexivity.
Qed.

End Passing.

(** X14.  Errors of the watcher and events that do not qualify pass through
    the loop: taking them out of what happens changes neither the timers,
    nor the compiles, nor how the loop ends, and takes out of what it does
    only the lines that report the watcher's errors. *)
Theorem watcher_errors_pass
        world baseURL compiler filePath args showSource projectRoot absPath st schedule :
  let run := loop world baseURL compiler filePath args showSource projectRoot
                  absPath st schedule in
  loop world baseURL compiler filePath args showSource projectRoot absPath st
       (List.filter (fun ti => negb (passes absPath ti)) schedule)
  = (List.filter (fun a => negb (isWatcherErrorLine a)) (fst run), snd run) /\
  countIf isWatcherErrorLine (fst run)
  = countIf (fun ti => match snd ti with RecvError _ => true | _ => false end)
            (handled schedule).
Proof.
  cbv zeta. split; [apply loop_passes|apply loop_error_lines].
Qed.

End PassFacts.
